(** * luxgiant-dstream: the results visualisation core of [plots.py]

    A shallow embedding of the plotting module: the genome-wide
    coordinate transform of the Miami plot, the QQ confidence band and
    thinning, the classifier of annotated variants, and the control
    flow of the three plot composers.

    Conventions.
    - In the four algorithms a pandas table is a list of rows and a
      column is a projection; in the composers it is a [DataFrame]:
      its column labels and one map from label to cell per row.
    - numpy floats are idealised as real numbers ([R]); the external
      functions [np.log10], [np.round] and [scipy.stats.beta.ppf] are
      given their mathematical meaning.
    - Python calls that may raise run in a small exception monad over a
      world holding the caller's tables, the current figure and the
      image files written so far. *)

From Stdlib Require Import ZArith List Lia Ascii String Reals Lra Permutation.
From Stdlib Require Import ClassicalEpsilon.
From stdpp Require Import base tactics option list strings sorting gmap.

Open Scope Z_scope.

(** ** Sums and running sums of integer columns *)

Definition sum_Z (l : list Z) : Z := foldr Z.add 0 l.

(** [Series.cumsum()]. *)
Fixpoint cumsum_from (acc : Z) (l : list Z) : list Z :=
  match l with
  | [] => []
  | x :: l' => (acc + x) :: cumsum_from (acc + x) l'
  end.

Definition cumsum (l : list Z) : list Z := cumsum_from 0 l.

(** The running sum less the column itself: what came before each
    entry. *)
Fixpoint sums_before (acc : Z) (l : list Z) : list Z :=
  match l with
  | [] => []
  | x :: l' => acc :: sums_before (acc + x) l'
  end.

(** [Series.max()] of a group, which is never empty. *)
Definition max_from (x : Z) (l : list Z) : Z := foldl Z.max x l.

(** A stable sort, for [sort_values]: a row moves in front of the
    first row that is not below it, the rows being taken last to
    first. *)
Fixpoint insert_sorted {A} (le : A -> A -> bool) (a : A) (l : list A) : list A :=
  match l with
  | [] => [a]
  | b :: l' => if le a b then a :: b :: l' else b :: insert_sorted le a l'
  end.

Definition stable_sort {A} (le : A -> A -> bool) (l : list A) : list A :=
  foldr (insert_sorted le) [] l.

(** ** numpy and scipy on real numbers *)

#[export] Instance R_eq_dec : EqDecision R := Req_dec_T.

(** [-np.log10(x)]. *)
Definition neg_log10 (x : R) : R := (- (ln x / ln 10))%R.

(** [np.rint]: the nearest integer, halves going to the even one. *)
Definition rint (x : R) : Z :=
  let f := Zfloor x in
  let d := (x - IZR f)%R in
  if Rlt_dec d (1 / 2) then f
  else if Rlt_dec (1 / 2) d then f + 1
  else if Z.even f then f else f + 1.

(** [np.round(x, decimals)]: scale, round to the nearest integer, scale
    back. *)
Definition np_round (x : R) (decimals : nat) : R :=
  (IZR (rint (x * 10 ^ decimals)) / 10 ^ decimals)%R.

(** Binomial coefficients, by Pascal's rule. *)
Fixpoint binomial (n k : nat) : nat :=
  match n, k with
  | _, O => 1%nat
  | O, S _ => 0%nat
  | S n', S k' => (binomial n' k' + binomial n' k)%nat
  end.

(** The distribution function of Beta(a, b) for whole shape parameters:
    the chance that at least [a] of [a + b - 1] uniform draws fall
    below [x]. *)
Definition beta_cdf (a b : nat) (x : R) : R :=
  foldr Rplus 0%R
    (map (fun j => (INR (binomial (a + b - 1) j) * x ^ j * (1 - x) ^ (a + b - 1 - j))%R)
         (seq a b)).

(** [scipy.stats.beta.ppf(q, a, b)]: the point of [0, 1] where the
    distribution function reaches [q].  The shape parameters arrive as
    Python integers. *)
Definition beta_ppf (q : R) (a b : Z) : R :=
  epsilon (inhabits 0%R)
    (fun x => (0 <= x <= 1)%R /\ beta_cdf (Z.to_nat a) (Z.to_nat b) x = q).

(** ** 4.1 Coordinate transformer: [compute_relative_pos] *)

Module Coord.

(** One output row of [compute_relative_pos]: the input row with the
    two added columns. *)
Record placed (row : Type) : Type := mkPlaced {
  rec : row;
  rel_pos : Z;
  log10p : R
}.
Arguments mkPlaced {row} _ _ _.
Arguments rec {row} _.
Arguments rel_pos {row} _.
Arguments log10p {row} _.

Section Transformer.
(** The function takes the column names as arguments; here a column
    is the projection that reads it. *)
Context {row : Type}.
Variable chr_col : row -> Z.
Variable pos_col : row -> Z.
Variable p_col : row -> R.

(** [data.groupby(chr_col).agg(chrlength=(pos_col, 'max'))]: one
    entry per chromosome, in ascending chromosome order, holding the
    largest position seen on it. *)
Fixpoint agg_max (c x : Z) (g : list (Z * Z)) : list (Z * Z) :=
  match g with
  | [] => [(c, x)]
  | (c', m) :: g' =>
      if c <? c' then (c, x) :: (c', m) :: g'
      else if c =? c' then (c', Z.max m x) :: g'
      else (c', m) :: agg_max c x g'
  end.

Definition chr_grouped (data : list row) : list (Z * Z) :=
  foldl (fun g r => agg_max (chr_col r) (pos_col r) g) [] data.

(** The entry of one chromosome in such a table. *)
Fixpoint glookup (c : Z) (g : list (Z * Z)) : option Z :=
  match g with
  | [] => None
  | (k, m) :: g' => if k =? c then Some m else glookup c g'
  end.

(** [chr_grouped['chrlength'].cumsum() - chr_grouped['chrlength']],
    kept next to the chromosome column. *)
Definition cumulativechrlength (g : list (Z * Z)) : list (Z * Z) :=
  zip (g.*1) (zip_with Z.sub (cumsum (g.*2)) (g.*2)).

(** [pd.merge(data, right, on=chr_col)]: an inner join that keeps the
    order of the left rows. *)
Definition merge (data : list row) (right : list (Z * Z)) : list (row * Z) :=
  flat_map (fun r =>
    map (fun e => (r, e.2))
        (filter (fun e => e.1 = chr_col r) right)) data.

(** [data.sort_values(by=[chr_col, pos_col])]: a stable sort on the
    pair of keys. *)
Definition key_le (a b : row * Z) : bool :=
  (chr_col a.1 <? chr_col b.1) ||
  ((chr_col a.1 =? chr_col b.1) && (pos_col a.1 <=? pos_col b.1)).

Definition sort_values (l : list (row * Z)) : list (row * Z) :=
  stable_sort key_le l.

Definition compute_relative_pos (data : list row) : list (placed row) :=
  let chr_grouped := cumulativechrlength (chr_grouped data) in
  let data := merge data chr_grouped in
  let data := sort_values data in
  map (fun d => mkPlaced d.1 (pos_col d.1 + d.2) (neg_log10 (p_col d.1))) data.

(** *** The layout the specification describes *)

(** Largest position observed on chromosome [c], if [c] occurs. *)
Definition chrom_max (data : list row) (c : Z) : option Z :=
  match map pos_col (filter (fun r => chr_col r = c) data) with
  | [] => None
  | x :: xs => Some (max_from x xs)
  end.

Definition chrom_length (data : list row) (c : Z) : Z :=
  default 0 (chrom_max data c).

(** Sum of the lengths of the chromosomes before [c] in ascending
    order. *)
Definition cumulative_offset (data : list row) (c : Z) : Z :=
  sum_Z (map (chrom_length data)
             (filter (fun c' => c' < c) (remove_dups (map chr_col data)))).

(** The row that layout gives a record. *)
Definition place (data : list row) (r : row) : placed row :=
  mkPlaced r (pos_col r + cumulative_offset data (chr_col r))
           (neg_log10 (p_col r)).

End Transformer.


End Coord.

(** ** Python exceptions *)

Inductive exn : Type :=
  | TypeError
  | ValueError
  | KeyError (column : string)
  | UnboundLocalError
  | FileNotFoundError.

(** ** 4.2 Confidence band estimator: the body of [plot_confidence_interval] *)

Module Band.

(** [np.zeros((rows, 2))]; numpy refuses a negative dimension. *)
Definition np_zeros (rows : Z) : exn + list (R * R) :=
  if rows <? 0 then inl ValueError
  else inr (replicate (Z.to_nat rows) (0%R, 0%R)).

(** [mpts[r, 0] = v] and [mpts[r, 1] = v]. *)
Definition set_col0 (r : Z) (v : R) (mpts : list (R * R)) : list (R * R) :=
  alter (fun e => (v, e.2)) (Z.to_nat r) mpts.

Definition set_col1 (r : Z) (v : R) (mpts : list (R * R)) : list (R * R) :=
  alter (fun e => (e.1, v)) (Z.to_nat r) mpts.

(** One turn of the loop, at rank [i]. *)
Definition band_step (n conf_points : Z) (conf_alpha : R)
    (mpts : list (R * R)) (i : Z) : list (R * R) :=
  let x := neg_log10 ((IZR i - 0.5) / IZR n) in
  let y_upper := neg_log10 (beta_ppf (1 - conf_alpha / 2) i (n - i)) in
  let y_lower := neg_log10 (beta_ppf (conf_alpha / 2) i (n - i)) in
  let mpts := set_col0 (i - 1) x mpts in
  let mpts := set_col1 (i - 1) y_upper mpts in
  let mpts := set_col0 (conf_points * 2 - i) x mpts in
  let mpts := set_col1 (conf_points * 2 - i) y_lower mpts in
  mpts.

(** The polygon [mpts] as it is handed to [plt.fill]. *)
Definition confidence_band (n conf_points : Z) (conf_alpha : R)
    : exn + list (R * R) :=
  let conf_points := Z.min conf_points (n - 1) in
  match np_zeros (conf_points * 2) with
  | inl e => inl e
  | inr mpts =>
      inr (foldl (band_step n conf_points conf_alpha) mpts
                 (seqZ 1 conf_points))
  end.

(** The quantities the specification names for rank [i], with the
    shape parameters the loop passes. *)
Definition x_at (n i : Z) : R := neg_log10 ((IZR i - 0.5) / IZR n).

Definition upper_at (n : Z) (conf_alpha : R) (i : Z) : R :=
  neg_log10 (beta_ppf (1 - conf_alpha / 2) i (n - i)).

Definition lower_at (n : Z) (conf_alpha : R) (i : Z) : R :=
  neg_log10 (beta_ppf (conf_alpha / 2) i (n - i)).

End Band.

(** ** 4.3 Point thinning, as done inside [qq_plot] *)

Module Thin.

(** [DataFrame.drop_duplicates()]: a row is kept when no earlier row
    equals it. *)
Fixpoint drop_duplicates_from {A} `{EqDecision A} (seen l : list A) : list A :=
  match l with
  | [] => []
  | x :: l' =>
      if decide (x ∈ seen) then drop_duplicates_from seen l'
      else x :: drop_duplicates_from (x :: seen) l'
  end.

Definition drop_duplicates {A} `{EqDecision A} (l : list A) : list A :=
  drop_duplicates_from [] l.

(** [pd.DataFrame({'pvalues': np.round(log_p, 3),
                   'exp_x': np.round(exp_x, 3)}).drop_duplicates()]. *)
Definition thin (log_p exp_x : list R) : list (R * R) :=
  drop_duplicates
    (zip (map (fun v => np_round v 3) log_p) (map (fun v => np_round v 3) exp_x)).

(** The rounding of one row. *)
Definition round3 (e : R * R) : R * R := (np_round e.1 3, np_round e.2 3).

(** Thinning a table of pairs: its two columns go through [thin]. *)
Definition thin_pairs (X : list (R * R)) : list (R * R) := thin (X.*1) (X.*2).

End Thin.

(** ** 4.4 Variant classifier: [classify_annotations] *)

Module Classifier.

Inductive category : Type := on_both | top_in_bottom | bottom_in_top.

#[export] Instance category_eq_dec : EqDecision category.
Proof. solve_decision. Defined.

Section Classify.
Context {row : Type}.
(** The ['SNP'] column. *)
Variable snp : row -> string.

(** [pd.merge(top, bottom[['SNP']], on='SNP', how='inner')]: every
    top row once per bottom row with the same id; only the top row's
    columns survive. *)
Definition merge_inner (top bottom : list row) : list row :=
  flat_map (fun t => map (fun _ => t) (filter (fun b => snp b = snp t) bottom)) top.

(** [df[~df['SNP'].isin(other['SNP'])]]. *)
Definition not_isin (df other : list row) : list row :=
  filter (fun r => snp r ∉ map snp other) df.

(** [df['type'] = tag]. *)
Definition set_type (tag : category) (df : list row) : list (row * category) :=
  map (fun r => (r, tag)) df.

Definition classify_annotations (df_top_highlts df_bottom_highlts : list row)
    : list (row * category) :=
  let df_both := set_type on_both (merge_inner df_top_highlts df_bottom_highlts) in
  let df_top_in_bottom := set_type top_in_bottom (not_isin df_top_highlts df_bottom_highlts) in
  let df_bottom_in_top := set_type bottom_in_top (not_isin df_bottom_highlts df_top_highlts) in
  df_both ++ df_top_in_bottom ++ df_bottom_in_top.

(** The rows of one category, and the ids found in a table. *)
Definition group (c : category) (out : list (row * category)) : list row :=
  (filter (fun e => e.2 = c) out).*1.

Definition ids (df : list row) : gset string := list_to_set (map snp df).

End Classify.

(** The highlight tables of the specification's scenario, a table being
    its column of ids. *)
Definition ABC : list string := ["A"; "B"; "C"]%string.
Definition BCD : list string := ["B"; "C"; "D"]%string.

End Classifier.

(** ** Tables, the plotting state and the exception monad *)

(** A cell of a table.  A column holds the type the data model gives it;
    a cell read at another type yields that type's default. *)
Inductive cell : Type :=
  | Int (z : Z)
  | Float (x : R)
  | Str (s : string).

#[export] Instance cell_eq_dec : EqDecision cell.
Proof. solve_decision. Defined.

#[export] Instance cell_inhabited : Inhabited cell := populate (Int 0).

Definition as_int (c : cell) : Z :=
  match c with Int z => z | Float x => Zfloor x | Str _ => 0 end.

Definition as_float (c : cell) : R :=
  match c with Int z => IZR z | Float x => x | Str _ => 0%R end.

Definition as_str (c : cell) : string :=
  match c with Str s => s | _ => EmptyString end.

(** A [pd.DataFrame]: the column labels in order, and one map from
    column label to cell per row. *)
Record DataFrame : Type := mkDF {
  columns : list string;
  records : list (gmap string cell)
}.

#[export] Instance DataFrame_inhabited : Inhabited DataFrame := populate (mkDF [] []).

(** [df[c]] raises [KeyError] for a column that is not there. *)
Definition getitem (df : DataFrame) (c : string) : exn + list cell :=
  if decide (c ∈ columns df) then inr (map (fun r => r !!! c) (records df))
  else inl (KeyError c).

(** [df[c] = vals] and [df[c] = scalar] (broadcast to every row). *)
Definition setitem (df : DataFrame) (c : string) (vals : list cell) : DataFrame :=
  mkDF (if decide (c ∈ columns df) then columns df else columns df ++ [c])
       (zip_with (fun r v => <[c := v]> r) (records df) vals).

Definition setitem_scalar (df : DataFrame) (c : string) (v : cell) : DataFrame :=
  setitem df c (replicate (length (records df)) v).

(** [df[mask]]: the rows that satisfy [keep]. *)
Definition select (keep : gmap string cell -> bool) (df : DataFrame) : DataFrame :=
  mkDF (columns df) (List.filter keep (records df)).

(** [pd.concat([a, b], axis=0)]. *)
Definition concat (a b : DataFrame) : DataFrame :=
  mkDF (columns a ++ List.filter (fun c => negb (bool_decide (c ∈ columns a))) (columns b))
       (records a ++ records b).

(** The distinct keys of a [groupby], ascending. *)
Fixpoint insert_key (k : Z) (ks : list Z) : list Z :=
  match ks with
  | [] => [k]
  | k' :: ks' =>
      if k <? k' then k :: k' :: ks'
      else if k =? k' then k' :: ks'
      else k' :: insert_key k ks'
  end.

Definition group_keys (keys : list Z) : list Z := foldr insert_key [] keys.

(** What is drawn.  Only the structure of a drawing call is kept. *)
Inductive artist : Type :=
  | Scatter (ax : positive) (xs ys : list R) (color : string) (size : Z)
  | ScatterHue (ax : positive) (xs ys : list R) (hue : list cell) (palette : list string)
  | Text (ax : positive) (x y : R) (s : string)
  | AdjustText (ax : positive)
  | Fill (xs ys : list R) (color : string)
  | Line (ax : positive) (xs ys : list R) (color : string)
  | Axhline (ax : positive) (y : R) (color : string)
  | Xticks (ax : positive) (pos : list R) (labels : list cell)
  | Xlim (ax : positive) (lo hi : R)
  | Ylim (ax : positive) (lo hi : R)
  | Xlabel (ax : positive) (s : string)
  | Ylabel (ax : positive) (s : string)
  | Title (ax : positive) (s : string)
  | Grid (ax : positive)
  | AspectEqual (ax : positive)
  | TightLayout.

(** The world a plotting call runs in: the caller's tables by object
    identity, pyplot's current figure, the directories that exist and
    the image files written so far. *)
Record world : Type := mkWorld {
  frames : gmap positive DataFrame;
  figure : list artist;
  dirs : list string;
  files : list string
}.

Definition M (A : Type) : Type := world -> world * (exn + A).

#[export] Instance M_ret : MRet M := fun A a w => (w, inr a).

#[export] Instance M_bind : MBind M := fun A B f m w =>
  match m w with
  | (w', inl e) => (w', inl e)
  | (w', inr a) => f a w'
  end.

Definition raise {A} (e : exn) : M A := fun w => (w, inl e).

(** A computation that may raise but touches nothing. *)
Definition lift {A} (r : exn + A) : M A := fun w => (w, r).

(** Reading the table a caller's variable refers to. *)
Definition load (l : positive) : M DataFrame := fun w => (w, inr (frames w !!! l)).

(** Changing that table in place. *)
Definition update (l : positive) (f : DataFrame -> DataFrame) : M unit := fun w =>
  (mkWorld (<[l := f (frames w !!! l)]> (frames w)) (figure w) (dirs w) (files w), inr tt).

(** [plt.figure()] / [plt.subplots()]: a fresh current figure. *)
Definition new_figure : M unit := fun w =>
  (mkWorld (frames w) [] (dirs w) (files w), inr tt).

Definition draw (a : artist) : M unit := fun w =>
  (mkWorld (frames w) (figure w ++ [a]) (dirs w) (files w), inr tt).

(** [os.path.join(a, b)] for a relative [b]. *)
Definition ends_with_slash (s : string) : bool :=
  match String.get (String.length s - 1) s with
  | Some c => bool_decide (c = "/"%char)
  | None => false
  end.

Definition path_join (a b : string) : string :=
  if bool_decide (a = EmptyString) then b
  else if ends_with_slash a then String.append a b
  else String.append a (String.append "/" b).

(** [plt.savefig(os.path.join(plots_dir, name))]: the directory has to
    exist. *)
Definition savefig (plots_dir name : string) : M unit := fun w =>
  if decide (plots_dir ∈ dirs w)
  then (mkWorld (frames w) (figure w) (dirs w) (files w ++ [path_join plots_dir name]), inr tt)
  else (w, inl FileNotFoundError).

(** Built-in [max] and [min] of a sequence raise [ValueError] on an
    empty one, as do numpy's [.min()] and [.max()]. *)
Definition py_max (l : list R) : exn + R :=
  match l with
  | [] => inl ValueError
  | x :: xs => inr (foldl Rmax x xs)
  end.

Definition py_min (l : list R) : exn + R :=
  match l with
  | [] => inl ValueError
  | x :: xs => inr (foldl Rmin x xs)
  end.

(** A specification of a call: from a world satisfying [P] it either
    returns [a] in a world satisfying [Q a], or raises [e] in a world
    satisfying [E e]. *)
Definition triple {A} (P : world -> Prop) (m : M A)
    (Q : A -> world -> Prop) (E : exn -> world -> Prop) : Prop :=
  forall w, P w ->
    match m w with
    | (w', inr a) => Q a w'
    | (w', inl e) => E e w'
    end.

(** An invariant that drawing cannot break, and a call that keeps an
    invariant whether it returns or raises. *)
Definition figure_blind (I : world -> Prop) : Prop :=
  forall w fig, I w -> I (mkWorld (frames w) fig (dirs w) (files w)).

Definition preserves {A} (I : world -> Prop) (m : M A) : Prop :=
  triple I m (fun _ => I) (fun _ => I).

(** Two worlds that differ at most in the figure. *)
Definition same_store (w0 w : world) : Prop :=
  frames w = frames w0 /\ dirs w = dirs w0 /\ files w = files w0.

(** What a call may leave untouched: the caller's tables, the files
    written so far, or the tables together with the directories. *)
Definition frames_kept (w0 w : world) : Prop := frames w = frames w0.

Definition files_kept (w0 w : world) : Prop := files w = files w0.


(** A table that has the columns a call reads. *)
Definition has_columns (cols : list string) (df : DataFrame) : Prop :=
  Forall (fun c => c ∈ columns df) cols.

(** The mark [prepare_data] leaves on the two tables it is given. *)
Definition split_marked (data_top data_bottom : positive) (w : world) : Prop :=
  "split_by" ∈ columns (frames w !!! data_top) /\
  "split_by" ∈ columns (frames w !!! data_bottom).

(** Reading a local variable that was never assigned. *)
Definition local {A} (v : option A) : M A :=
  match v with
  | Some a => mret a
  | None => raise UnboundLocalError
  end.

#[export] Instance Rlt_decision (x y : R) : Decision (x < y)%R := Rlt_dec x y.

Fixpoint foldM {A S} (f : S -> A -> M S) (s : S) (l : list A) : M S :=
  match l with
  | [] => mret s
  | a :: l' => s' ← f s a; foldM f s' l'
  end.

Definition getcol (df : DataFrame) (c : string) : M (list cell) := lift (getitem df c).

Definition floats (df : DataFrame) (c : string) : M (list R) :=
  v ← getcol df c; mret (map as_float v).

(** [df.sort_values(by)] on whole-number key columns. *)
Fixpoint lex_le (by_cols : list string) (a b : gmap string cell) : bool :=
  match by_cols with
  | [] => true
  | k :: ks =>
      let x := as_int (a !!! k) in
      let y := as_int (b !!! k) in
      (x <? y) || ((x =? y) && lex_le ks a b)
  end.

Definition sort_values (df : DataFrame) (by_cols : list string) : DataFrame :=
  mkDF (columns df) (stable_sort (lex_le by_cols) (records df)).

(** Iterating over [df.groupby(c)]: the groups by ascending key. *)
Definition groupby (df : DataFrame) (c : string) : list (Z * DataFrame) :=
  map (fun k => (k, select (fun r => as_int (r !!! c) =? k) df))
      (group_keys (map (fun r => as_int (r !!! c)) (records df))).

(** [genes[snps.index(id)]]; [list.index] raises [ValueError] for an
    absent element. *)
Fixpoint gene_of (snps genes : list cell) (id : cell) : exn + cell :=
  match snps, genes with
  | s :: snps', g :: genes' => if decide (s = id) then inr g else gene_of snps' genes' id
  | _, _ => inl ValueError
  end.

(** What a positional call hands over. *)
Inductive pyval : Type :=
  | VAxes (ax : positive)
  | VFrame (df : DataFrame)
  | VList (l : list cell).

(** What [manhattan_plot] returns. *)
Inductive pyret : Type :=
  | RetAxes (ax : positive)
  | RetBool (b : bool).

(** *** A small world to run the composers in

    An association table with a single variant (1), an annotation table
    naming it (2), an empty association table (3), a second association
    table (4), and one output directory. *)
Definition sample_gwas : DataFrame :=
  mkDF ["SNP"; "CHR"; "bp"; "POS"; "p"]%string
       [ <["SNP" := Str "rs1"]> (<["CHR" := Int 1]> (<["bp" := Int 100]>
           (<["POS" := Int 100]> (<["p" := Float (1 / 2)]> ∅)))) ].

Definition sample_annot : DataFrame :=
  mkDF ["SNP"; "GENE"]%string
       [ <["SNP" := Str "rs1"]> (<["GENE" := Str "G1"]> ∅) ].

Definition empty_gwas : DataFrame :=
  mkDF ["SNP"; "CHR"; "bp"; "POS"; "p"]%string [].

Definition sample_world : world :=
  mkWorld (<[1%positive := sample_gwas]> (<[2%positive := sample_annot]>
             (<[3%positive := empty_gwas]> (<[4%positive := sample_gwas]> ∅))))
          [] ["plots"]%string [].

(** ** 4.5 Plot composer: Manhattan *)

Module Manhattan.

Definition colors : list string := ["grey"; "skyblue"]%string.

Definition draw_chrom_groups (ax : positive) (df_chr_group : list (Z * DataFrame))
    (highlighted_snps : option DataFrame) : M positive :=
  _ ← foldM (fun (st : list cell * list R) (it : nat * (Z * DataFrame)) =>
        let '(x_labels, x_labels_pos) := st in
        let '(num, (name, group)) := it in
        ind ← floats group "ind";
        log10P ← floats group "log10P";
        draw (Scatter ax ind log10P (colors !!! (num mod length colors)%nat) 10);;
        let x_labels := x_labels ++ [Int name] in
        let middle_pos := ((default 0 (last ind) + default 0 (head ind)) / 2)%R in
        let x_labels_pos := x_labels_pos ++ [middle_pos] in
        draw (Xticks ax x_labels_pos x_labels);;
        match highlighted_snps with
        | Some h =>
            hx ← floats h "ind";
            hy ← floats h "log10P";
            draw (Scatter ax hx hy "red" 50)
        | None => mret tt
        end;;
        mret (x_labels, x_labels_pos))
      ([], []) (imap (fun i g => (i, g)) df_chr_group);
  mret ax.

Definition annotate_plot_body (ax : positive) (highlighted_snps : DataFrame)
    (snps genes : list cell) : M positive :=
  _ ← foldM (fun (_ : unit) (r : gmap string cell) =>
        gene ← lift (gene_of snps genes (r !!! "SNP"));
        draw (Text ax (as_float (r !!! "ind")) (as_float (r !!! "log10P")) (as_str gene)))
      tt (records highlighted_snps);
  draw (AdjustText ax);;
  mret ax.

(** [def annotate_plot(ax, highlighted_snps, snps, genes)]: four
    positional parameters without defaults; a call that leaves one
    unfilled raises [TypeError]. *)
Definition annotate_plot (args : list pyval) : M positive :=
  match args with
  | [VAxes ax; VFrame highlighted_snps; VList snps; VList genes] =>
      annotate_plot_body ax highlighted_snps snps genes
  | _ => raise TypeError
  end.

Definition manhattan_plot (df_gwas : positive) (plots_dir : option string)
    (df_annot : option positive) (annotate : bool) : M pyret :=
  df ← load df_gwas;
  p ← floats df "p";
  let df := setitem df "log10P" (map (fun x => Float (neg_log10 x)) p) in
  _ ← getcol df "CHR";
  _ ← getcol df "bp";
  let df := sort_values df ["CHR"; "bp"]%string in
  let df := setitem df "ind" (map Int (seqZ 0 (Z.of_nat (length (records df))))) in
  let df_grouped := groupby df "CHR" in
  vars ← match df_annot with
         | Some a =>
             annot ← load a;
             snps ← getcol annot "SNP";
             genes ← getcol annot "GENE";
             _ ← getcol df "SNP";
             mret (Some genes,
                   Some (select (fun r => bool_decide (r !!! "SNP" ∈ snps)) df))
         | None => mret (None, None)
         end;
  let '(genes, highlighted_snps) := vars in
  new_figure;;
  let ax := 111%positive in
  ax ← match df_annot with
       | Some _ => h ← local highlighted_snps; draw_chrom_groups ax df_grouped (Some h)
       | None => draw_chrom_groups ax df_grouped None
       end;
  ax ← (if annotate
        then h ← local highlighted_snps;
             g ← local genes;
             annotate_plot [VAxes ax; VFrame h; VList g]
        else mret ax);
  draw (Xlim ax 0 (IZR (Z.of_nat (length (records df)))));;
  log10P ← floats df "log10P";
  top ← lift (py_max log10P);
  draw (Ylim ax 0 (top + 1));;
  draw (Axhline ax (neg_log10 (5 / 10 ^ 8)) "blue");;
  draw (Xlabel ax "Chromosome");;
  draw (Ylabel ax "-log10(P-value)");;
  draw (Title ax "Manhattan Plot");;
  draw (Grid ax);;
  match plots_dir with
  | None => mret (RetAxes ax)
  | Some d =>
      draw TightLayout;;
      savefig d "manhattan_plot.png";;
      mret (RetBool true)
  end.

End Manhattan.

(** ** 4.5 Plot composer: QQ *)

Module QQ.

(** [stats.rankdata(pvalues, method='ordinal')]: ranks from 1 by
    ascending value, equal values ranked in the order they occur. *)
Definition rankdata (pvalues : list R) : list Z :=
  imap (fun j x =>
          Z.of_nat (1 + length (filter (fun y => (y < x)%R) pvalues)
                      + length (filter (fun y => y = x) (take j pvalues))))
       pvalues.

Definition plot_confidence_interval (n conf_points : Z) (conf_col : string)
    (conf_alpha : R) : M unit :=
  mpts ← lift (Band.confidence_band n conf_points conf_alpha);
  draw (Fill (mpts.*1) (mpts.*2) conf_col).

Definition qq_plot (df_gwas : positive) (plots_dir : string) : M bool :=
  df ← load df_gwas;
  pvalues ← floats df "p";
  let n := Z.of_nat (length pvalues) in
  let log_p := map neg_log10 pvalues in
  let exp_x := map (fun r => neg_log10 ((IZR r - 0.5) / IZR n)) (rankdata pvalues) in
  let thin := Thin.thin log_p exp_x in
  let log_p := thin.*1 in
  let exp_x := thin.*2 in
  lo_p ← lift (py_min log_p);
  lo_x ← lift (py_min exp_x);
  hi_p ← lift (py_max log_p);
  hi_x ← lift (py_max exp_x);
  let axis_range := [(Rmin lo_p lo_x - 0.5)%R; (Rmax hi_p hi_x + 1)%R] in
  new_figure;;
  let ax := 1%positive in
  plot_confidence_interval n 1500 "lightgray" 0.05;;
  draw (Scatter ax exp_x log_p "C0" 36);;
  draw (Line ax axis_range axis_range "red");;
  draw (Xlim ax (Rmin lo_p lo_x - 0.5) (Rmax hi_p hi_x + 1));;
  draw (Ylim ax (Rmin lo_p lo_x - 0.5) (Rmax hi_p hi_x + 1));;
  draw (Xlabel ax "Expected (-log10 p-value)");;
  draw (Ylabel ax "Observed (-log10 p-value)");;
  draw (AspectEqual ax);;
  draw (Grid ax);;
  draw TightLayout;;
  savefig plots_dir "qq_plot.png";;
  mret true.

End QQ.

(** ** 4.5 Plot composer: Miami *)

Module Miami.

(** pandas' [Series.max()] and [Series.min()] give NaN ([None]) on an
    empty column; Python's [max(a, b)] on floats keeps [a] unless
    [b > a], and every comparison with NaN is false. *)
Definition series_max (l : list R) : option R :=
  match l with [] => None | x :: xs => Some (foldl Rmax x xs) end.

Definition series_min (l : list R) : option R :=
  match l with [] => None | x :: xs => Some (foldl Rmin x xs) end.

Definition py_max2 (a b : option R) : option R :=
  match a, b with
  | Some x, Some y => Some (if Rlt_dec x y then y else x)
  | _, _ => a
  end.

(** An axis limit may not be NaN. *)
Definition finite (v : option R) : M R :=
  match v with Some x => mret x | None => raise ValueError end.

(** The dictionary [process_miami_data] returns. *)
Record plot_data : Type := mkPlotData {
  upper : DataFrame;
  lower : DataFrame;
  axis : DataFrame;
  maxp : option R
}.

Definition prepare_data (data_top data_bottom : positive) : M DataFrame :=
  update data_top (fun df => setitem_scalar df "split_by" (Str "top"));;
  update data_bottom (fun df => setitem_scalar df "split_by" (Str "bottom"));;
  top ← load data_top;
  bottom ← load data_bottom;
  mret (concat top bottom).

Definition compute_relative_pos (data : DataFrame) (chr_col pos_col p_col : string)
    : M DataFrame :=
  _ ← getcol data chr_col;
  _ ← getcol data pos_col;
  _ ← getcol data p_col;
  let out :=
    Coord.compute_relative_pos
      (fun r => as_int (r !!! chr_col)) (fun r => as_int (r !!! pos_col))
      (fun r => as_float (r !!! p_col)) (records data) in
  let data := mkDF (columns data) (map Coord.rec out) in
  let data := setitem data "rel_pos" (map (fun d => Int (Coord.rel_pos d)) out) in
  let data := setitem data "log10p" (map (fun d => Float (Coord.log10p d)) out) in
  mret data.

Definition find_chromosomes_center (data : DataFrame) : M DataFrame :=
  let chr_col := "CHR"%string in
  let chr_pos_col := "rel_pos"%string in
  chrs ← getcol data chr_col;
  let chromosomes := Thin.drop_duplicates chrs in
  rows ← foldM (fun (axis_center : list (gmap string cell)) (chrom : cell) =>
            let temp := select (fun r => bool_decide (r !!! chr_col = chrom)) data in
            pos ← floats temp chr_pos_col;
            let hi := default 0%R (series_max pos) in
            let lo := default 0%R (series_min pos) in
            mret (axis_center ++
                  [ <["center" := Float (np_round ((hi + lo) / 2) 0)]>
                      (<["CHR" := chrom]> ∅) ]))
          [] chromosomes;
  mret (mkDF ["CHR"; "center"]%string rows).

Definition process_miami_data (data_top data_bottom : positive) : M plot_data :=
  data ← prepare_data data_top data_bottom;
  data ← compute_relative_pos data "CHR" "POS" "p";
  axis_center ← find_chromosomes_center data;
  log10p ← floats data "log10p";
  let maxp := (fun m => IZR (Zceil m)) <$> series_max log10p in
  _ ← getcol data "split_by";
  mret (mkPlotData
          (select (fun r => bool_decide (r !!! "split_by" = Str "top")) data)
          (select (fun r => bool_decide (r !!! "split_by" = Str "bottom")) data)
          axis_center maxp).

(** The frame-level classifier: the three groups stacked, each row
    carrying its ['type']. *)
Definition type_name (c : Classifier.category) : string :=
  match c with
  | Classifier.on_both => "on_both"
  | Classifier.top_in_bottom => "top_in_bottom"
  | Classifier.bottom_in_top => "bottom_in_top"
  end.

Definition classify_annotations (df_top_highlts df_bottom_highlts : DataFrame)
    : M DataFrame :=
  _ ← getcol df_top_highlts "SNP";
  _ ← getcol df_bottom_highlts "SNP";
  let out :=
    Classifier.classify_annotations (fun r => as_str (r !!! "SNP"))
      (records df_top_highlts) (records df_bottom_highlts) in
  mret (setitem (mkDF (columns (concat df_top_highlts df_bottom_highlts)) (out.*1))
                "type" (map (fun e => Str (type_name e.2)) out)).

Definition custom_hue_colors : list string :=
  ["#1f77b4"; "#2ca02c"; "#9467bd"]%string.

Definition annotate_miami (axes : positive) (gwas_data annotations : DataFrame)
    (to_annotate : list string) : M positive :=
  snps ← getcol annotations "SNP";
  genes ← getcol annotations "GENE";
  _ ← getcol gwas_data "SNP";
  _ ← getcol gwas_data "rel_pos";
  _ ← getcol gwas_data "log10p";
  let highlighted_snps :=
    mkDF (columns annotations ++ ["rel_pos"; "log10p"]%string)
         (flat_map (fun a =>
            map (fun g => <["log10p" := g !!! "log10p"]> (<["rel_pos" := g !!! "rel_pos"]> a))
                (List.filter (fun g => bool_decide (g !!! "SNP" = a !!! "SNP"))
                             (records gwas_data)))
            (records annotations)) in
  xs ← floats highlighted_snps "rel_pos";
  ys ← floats highlighted_snps "log10p";
  hue ← getcol highlighted_snps "type";
  draw (ScatterHue axes xs ys hue custom_hue_colors);;
  let snps_to_annotate :=
    select (fun r => bool_decide (as_str (r !!! "type") ∈ to_annotate)) highlighted_snps in
  _ ← foldM (fun (_ : unit) (r : gmap string cell) =>
        gene ← lift (gene_of snps genes (r !!! "SNP"));
        draw (Text axes (as_float (r !!! "rel_pos")) (as_float (r !!! "log10p")) (as_str gene)))
      tt (records snps_to_annotate);
  draw (AdjustText axes);;
  mret axes.

Definition chr_colors : list string := ["#66c2a5"; "#fc8d62"]%string.

Definition miami_plot (df_top : positive) (top_higlights : option positive)
    (df_bottom : positive) (bottom_higlights : option positive)
    (plots_dir : string) : M bool :=
  let genome_line := (5 / 10 ^ 8)%R in
  let suggestive_line := (1 / 10 ^ 5)%R in
  plot_data ← process_miami_data df_top df_bottom;
  upper_x ← floats (upper plot_data) "rel_pos";
  lower_x ← floats (lower plot_data) "rel_pos";
  let max_x_axis := py_max2 (series_max upper_x) (series_max lower_x) in
  new_figure;;
  let ax_upper := 211%positive in
  upper_y ← floats (upper plot_data) "log10p";
  upper_chr ← getcol (upper plot_data) "CHR";
  draw (ScatterHue ax_upper upper_x upper_y upper_chr chr_colors);;
  draw (Ylabel ax_upper "-log10(p)");;
  hi ← finite max_x_axis;
  draw (Xlim ax_upper 0 hi);;
  x_ticks ← floats (axis plot_data) "center";
  x_labels ← getcol (axis plot_data) "CHR";
  draw (Xticks ax_upper x_ticks x_labels);;
  draw (Axhline ax_upper (neg_log10 suggestive_line) "blue");;
  draw (Axhline ax_upper (neg_log10 genome_line) "red");;
  let ax_lower := 212%positive in
  lower_y ← floats (lower plot_data) "log10p";
  lower_chr ← getcol (lower plot_data) "CHR";
  draw (ScatterHue ax_lower lower_x lower_y lower_chr chr_colors);;
  draw (Ylabel ax_lower "-log10(p)");;
  top_y ← finite (maxp plot_data);
  draw (Ylim ax_lower top_y 0);;
  draw (Xlim ax_lower 0 hi);;
  draw (Xticks ax_lower x_ticks []);;
  draw (Axhline ax_lower (neg_log10 suggestive_line) "blue");;
  draw (Axhline ax_lower (neg_log10 genome_line) "red");;
  match top_higlights, bottom_higlights with
  | Some t, None =>
      update t (fun df => setitem_scalar df "type" (Str "top_in_bottom"));;
      annotations ← load t;
      _ ← annotate_miami ax_upper (upper plot_data) annotations ["top_in_bottom"]%string;
      _ ← annotate_miami ax_lower (lower plot_data) annotations ["top_in_bottom"]%string;
      mret tt
  | None, Some b =>
      update b (fun df => setitem_scalar df "type" (Str "bottom_in_top"));;
      annotations ← load b;
      _ ← annotate_miami ax_upper (upper plot_data) annotations ["bottom_in_top"]%string;
      _ ← annotate_miami ax_lower (lower plot_data) annotations ["bottom_in_top"]%string;
      mret tt
  | Some t, Some b =>
      top ← load t;
      bottom ← load b;
      split_annotations ← classify_annotations top bottom;
      _ ← annotate_miami ax_upper (upper plot_data) split_annotations
            ["on_both"; "top_in_bottom"]%string;
      _ ← annotate_miami ax_lower (lower plot_data) split_annotations ["on_both"]%string;
      mret tt
  | None, None => mret tt
  end;;
  draw (Xlabel ax_lower "Base pair position");;
  draw (Xlabel ax_upper EmptyString);;
  draw TightLayout;;
  savefig plots_dir "miami_plot.png";;
  mret true.

End Miami.

(** *** Tables that lack a column

    A table with p-values only (1), one with chromosomes and p-values
    (2), and one with the three columns ['SNP', 'CHR', 'p'] (3). *)
Definition p_only : DataFrame :=
  mkDF ["p"]%string [ <["p" := Float (1 / 2)]> ∅ ].

Definition chr_p : DataFrame :=
  mkDF ["CHR"; "p"]%string [ <["CHR" := Int 1]> (<["p" := Float (1 / 2)]> ∅) ].

Definition snp_chr_p : DataFrame :=
  mkDF ["SNP"; "CHR"; "p"]%string
       [ <["SNP" := Str "rs1"]> (<["CHR" := Int 1]> (<["p" := Float (1 / 2)]> ∅)) ].

Definition edge_world : world :=
  mkWorld (<[1%positive := p_only]> (<[2%positive := chr_p]>
             (<[3%positive := snp_chr_p]> ∅)))
          [] ["plots"]%string [].

(** The centre [find_chromosomes_center] computes for one chromosome:
    the rounded midpoint of the smallest and the largest relative
    position on it. *)
Definition center_of (data : DataFrame) (chrom : cell) : R :=
  let temp := select (fun r => bool_decide (r !!! "CHR" = chrom)) data in
  let pos := map as_float (map (fun r => r !!! "rel_pos") (records temp)) in
  np_round ((default 0%R (Miami.series_max pos) + default 0%R (Miami.series_min pos)) / 2) 0.

(** A row of [compute_relative_pos]'s result against the row it comes
    from: every cell but the two new ones is as it was. *)
Definition extends (r d : gmap string cell) : Prop :=
  forall c : string, c <> "rel_pos"%string -> c <> "log10p"%string -> d !!! c = r !!! c.

(** What a call may leave untouched besides the figure and the tables:
    the directories and the files written. *)
Definition out_kept (w0 w : world) : Prop :=
  dirs w = dirs w0 /\ files w = files w0.

(** A table as [compute_relative_pos] leaves it, with one variant. *)
Definition placed_sample : DataFrame :=
  mkDF ["CHR"; "rel_pos"]%string [ <["CHR" := Int 1]> (<["rel_pos" := Int 100]> ∅) ].



(** ** 4.7 The caller of the composers: [GWASrandom.plot_drawings] *)

Module GWASRandom.

(** The attributes [__init__] sets. *)
Record GWASrandom : Type := mkGWASrandom {
  input_path : string;
  output_path : string;
  input_name : string;
  output_name : string;
  config_dict : gmap string cell;
  preps_path : string;
  files_to_keep : list string;
  results_dir : string;
  plots_dir : string
}.

(** The dictionary a step reports. *)
Record out_dict : Type := mkOutDict {
  pass : bool;
  step : string;
  output : string
}.

(** Truth value of a configuration entry; [True] and [False] are the
    integers 1 and 0. *)
Definition truthy (c : cell) : bool :=
  match c with
  | Int z => negb (z =? 0)
  | Float x => negb (bool_decide (x = 0%R))
  | Str s => negb (bool_decide (s = EmptyString))
  end.

(** [d[k]] on a dictionary. *)
Definition dict_get (d : gmap string cell) (k : string) : exn + cell :=
  match d !! k with
  | Some v => inr v
  | None => inl (KeyError k)
  end.

(** A table that did not exist before the call: a new object. *)
Definition alloc (df : DataFrame) : M positive := fun w =>
  let l := fresh (dom (frames w) : gset positive) in
  (mkWorld (<[l := df]> (frames w)) (figure w) (dirs w) (files w), inr l).

(** [pd.read_csv(path, sep, usecols)] against the tables the files on
    disk hold: no file, [FileNotFoundError]; a column asked for and not
    in the file, [ValueError]; otherwise a new table with the columns
    asked for, in the order of the file. *)
Definition read_csv (disk : gmap string DataFrame) (path : string)
    (usecols : option (list string)) : M positive :=
  match disk !! path with
  | None => raise FileNotFoundError
  | Some df =>
      match usecols with
      | None => alloc df
      | Some cs =>
          if bool_decide (Forall (fun c => c ∈ columns df) cs)
          then alloc (mkDF (List.filter (fun c => bool_decide (c ∈ cs)) (columns df))
                           (map (filter (fun kv : string * cell => kv.1 ∈ cs)) (records df)))
          else raise ValueError
      end
  end.

Definition fastGWA_file (output_name : string) : string :=
  String.append output_name "_assocSparseCovar_pca_sex-mlm-binary--thread-num.fastGWA".

(** [mann_plot & QQ_plot]. *)
Definition py_and (a : pyret) (b : bool) : exn + bool :=
  match a with
  | RetBool a' => inr (a' && b)
  | RetAxes _ => inl TypeError
  end.

Definition plot_drawings (disk : gmap string DataFrame) (self : GWASrandom) : M out_dict :=
  let plots_dir := plots_dir self in
  let results_dir := results_dir self in
  let output_name := output_name self in
  annotate ← lift (dict_get (config_dict self) "annotate");
  let step := "draw_plots"%string in
  df_gwas ← read_csv disk (path_join results_dir (fastGWA_file output_name))
              (Some ["SNP"; "CHR"; "p"]%string);
  mann_plot ←
    (if truthy annotate
     then df_annot ← read_csv disk (path_join results_dir "snps_annotated.csv") None;
          Manhattan.manhattan_plot df_gwas (Some plots_dir) (Some df_annot) true
     else df_annot ← local (None : option (option positive));
          Manhattan.manhattan_plot df_gwas (Some plots_dir) df_annot false);
  QQ_plot ← QQ.qq_plot df_gwas plots_dir;
  process_complete ← lift (py_and mann_plot QQ_plot);
  mret (mkOutDict process_complete step plots_dir).

End GWASRandom.

(** A results directory whose association file has the three columns
    read, and two objects over it. *)
Definition sample_disk : gmap string DataFrame :=
  <["out/gwas_random/run_assocSparseCovar_pca_sex-mlm-binary--thread-num.fastGWA"%string
      := sample_gwas]>
    (<["out/gwas_random/snps_annotated.csv"%string := sample_annot]> ∅).

Definition sample_self (annotate : Z) : GWASRandom.GWASrandom :=
  GWASRandom.mkGWASrandom "in" "out" "data" "run" (<["annotate"%string := Int annotate]> ∅)
    "preps" [] "out/gwas_random" "out/plots_random".

(** A chromosome group as [manhattan_plot] hands it to
    [draw_chrom_groups]. *)
Definition indexed_group : DataFrame :=
  mkDF ["ind"; "log10P"]%string
       [ <["ind" := Int 0]> (<["log10P" := Float 1]> ∅);
         <["ind" := Int 1]> (<["log10P" := Float 2]> ∅) ].

(** The tick [draw_chrom_groups] computes for a group: the middle
    between its last and its first row index. *)
Definition group_middle (group : DataFrame) : R :=
  let ind := map as_float (map (fun r => r !!! "ind") (records group)) in
  ((default 0 (last ind) + default 0 (head ind)) / 2)%R.

(** * Properties *)

(** ** Sums, running sums and maxima *)

Lemma sum_Z_cons (x : Z) (l : list Z) : sum_Z (x :: l) = x + sum_Z l.
Proof. done. Qed.

Lemma sum_Z_app (l1 l2 : list Z) : sum_Z (l1 ++ l2) = sum_Z l1 + sum_Z l2.
Proof. unfold sum_Z. induction l1 as [|x l1 IH]; simpl; lia. Qed.


Lemma sum_Z_perm (l1 l2 : list Z) : l1 ≡ₚ l2 -> sum_Z l1 = sum_Z l2.
Proof. unfold sum_Z. induction 1; simpl; lia. Qed.

Lemma max_from_snoc (x y : Z) (l : list Z) :
  max_from x (l ++ [y]) = Z.max (max_from x l) y.
Proof. unfold max_from. by rewrite foldl_app. Qed.



(** The running sum, less the column itself, is the sum of what came
    before. *)
Lemma cumsum_from_sub (acc : Z) (l : list Z) :
  zip_with Z.sub (cumsum_from acc l) l = sums_before acc l.
Proof.
  revert acc. induction l as [|x l IH]; intros acc; simpl; [done|].
  rewrite IH. f_equal. lia.
Qed.

Lemma sums_before_length (acc : Z) (l : list Z) : length (sums_before acc l) = length l.
Proof. revert acc. induction l; intros; simpl; auto. Qed.

(** ** The stable sort *)

Lemma insert_sorted_perm {A} (le : A -> A -> bool) (a : A) (l : list A) :
  insert_sorted le a l ≡ₚ a :: l.
Proof.
  induction l as [|b l IH]; simpl; [done|].
  destruct (le a b); [done|]. rewrite IH. apply Permutation_swap.
Qed.

Lemma stable_sort_perm {A} (le : A -> A -> bool) (l : list A) :
  stable_sort le l ≡ₚ l.
Proof.
  unfold stable_sort. induction l as [|a l IH]; simpl; [done|].
  by rewrite insert_sorted_perm, IH.
Qed.

(** ** Filters and ascending lists *)

Lemma filter_none {A} (P : A -> Prop) `{forall x, Decision (P x)} (l : list A) :
  Forall (fun x => ~ P x) l -> filter P l = [].
Proof.
  induction 1 as [|x l Hx _ IH]; [done|].
  rewrite filter_cons. by destruct (decide (P x)).
Qed.

Lemma filter_all {A} (P : A -> Prop) `{forall x, Decision (P x)} (l : list A) :
  Forall P l -> filter P l = l.
Proof.
  induction 1 as [|x l Hx _ IH]; [done|].
  rewrite filter_cons. destruct (decide (P x)); [by rewrite IH|done].
Qed.

Lemma ascending_NoDup (l : list Z) : StronglySorted Z.lt l -> NoDup l.
Proof.
  induction 1 as [|x l _ IH Hall]; constructor; [|done].
  intros Hin. rewrite Forall_forall in Hall. specialize (Hall _ Hin). lia.
Qed.

(** ** Membership in a mapped column *)

Lemma elem_of_map {A B} (f : A -> B) (l : list A) (y : B) :
  y ∈ map f l <-> exists x, y = f x /\ x ∈ l.
Proof.
  rewrite list_elem_of_In, in_map_iff.
  split; intros (x & H1 & H2); exists x; split; auto; by apply list_elem_of_In.
Qed.

Lemma elem_of_map_2 {A B} (f : A -> B) (l : list A) (x : A) :
  x ∈ l -> f x ∈ map f l.
Proof. intros. apply elem_of_map. eauto. Qed.

(** ** 4.1 Coordinate transformer *)

Module CoordFacts.
Import Coord.

Section Facts.
Context {row : Type}.
Variable chr_col : row -> Z.
Variable pos_col : row -> Z.
Variable p_col : row -> R.

Lemma chrom_max_snoc data r c :
  chrom_max chr_col pos_col (data ++ [r]) c =
    if decide (chr_col r = c)
    then Some (match chrom_max chr_col pos_col data c with
               | Some m => Z.max m (pos_col r)
               | None => pos_col r
               end)
    else chrom_max chr_col pos_col data c.
Proof.
  unfold chrom_max. rewrite filter_app, map_app.
  rewrite filter_cons, filter_nil.
  destruct (decide (chr_col r = c)) as [E|E]; simpl.
  - destruct (map pos_col _) as [|x xs]; simpl; [done|].
    by rewrite max_from_snoc.
  - by rewrite app_nil_r.
Qed.

Lemma chrom_max_Some data c :
  is_Some (chrom_max chr_col pos_col data c) <-> c ∈ map chr_col data.
Proof.
  unfold chrom_max. rewrite list_elem_of_In, in_map_iff. split.
  - intros [m Hm].
    destruct (filter _ data) as [|r rs] eqn:Hf; [done|].
    assert (r ∈ filter (fun r => chr_col r = c) data) as Hr
      by (rewrite Hf; left).
    apply list_elem_of_filter in Hr as [? ?].
    exists r. by rewrite <- list_elem_of_In.
  - intros (r & Hc & Hr). apply list_elem_of_In in Hr.
    assert (r ∈ filter (fun r => chr_col r = c) data) as Hin
      by by apply list_elem_of_filter.
    destruct (filter _ data); [by apply elem_of_nil in Hin|]. simpl. eauto.
Qed.



(** *** Grouping *)

Lemma glookup_above c g : Forall (fun k => c < k) (g.*1) -> glookup c g = None.
Proof.
  induction g as [|[k m] g IH]; simpl; [done|]. intros Hall.
  apply Forall_cons in Hall as [Hk Hall]. simpl in Hk.
  destruct (k =? c) eqn:E; [apply Z.eqb_eq in E; lia|]. by apply IH.
Qed.

Lemma agg_max_keys c x g k : k ∈ (agg_max c x g).*1 <-> k = c \/ k ∈ g.*1.
Proof.
  induction g as [|[c' m] g IH]; simpl.
  - rewrite list_elem_of_singleton, elem_of_nil. tauto.
  - destruct (c <? c') eqn:E1; [simpl; rewrite !elem_of_cons; tauto|].
    destruct (c =? c') eqn:E2; simpl.
    + apply Z.eqb_eq in E2 as ->. rewrite !elem_of_cons. tauto.
    + rewrite elem_of_cons, IH, elem_of_cons. tauto.
Qed.

Lemma agg_max_sorted c x g :
  StronglySorted Z.lt (g.*1) -> StronglySorted Z.lt ((agg_max c x g).*1).
Proof.
  induction g as [|[c' m] g IH]; intros Hs; simpl.
  - repeat constructor.
  - inversion Hs as [|? ? Hs' Hall]; subst.
    destruct (c <? c') eqn:E1; simpl.
    + apply Z.ltb_lt in E1. constructor; [done|].
      constructor; [done|]. eapply Forall_impl; [exact Hall|].
      simpl; intros; lia.
    + destruct (c =? c') eqn:E2; simpl; [by constructor|].
      apply Z.ltb_ge in E1. apply Z.eqb_neq in E2.
      constructor; [by apply IH|].
      apply Forall_forall. intros k Hk. apply agg_max_keys in Hk as [->|Hk].
      * lia.
      * rewrite Forall_forall in Hall. by apply Hall.
Qed.

Lemma agg_max_lookup c x g c' :
  StronglySorted Z.lt (g.*1) ->
  glookup c' (agg_max c x g) =
    if decide (c' = c)
    then Some (match glookup c g with Some m => Z.max m x | None => x end)
    else glookup c' g.
Proof.
  induction g as [|[k m] g IH]; intros Hs; simpl.
  - destruct (decide (c' = c)) as [->|Hne].
    + by rewrite Z.eqb_refl.
    + destruct (c =? c') eqn:E; [apply Z.eqb_eq in E; congruence|done].
  - inversion Hs as [|? ? Hs' Hall]; subst.
    destruct (c <? k) eqn:E1; [|destruct (c =? k) eqn:E2]; simpl.
    + apply Z.ltb_lt in E1.
      destruct (k =? c) eqn:E3; [apply Z.eqb_eq in E3; lia|].
      rewrite (glookup_above c g)
        by (eapply Forall_impl; [exact Hall|simpl; intros; lia]).
      destruct (decide (c' = c)) as [->|Hne].
      * by rewrite Z.eqb_refl.
      * destruct (c =? c') eqn:E; [apply Z.eqb_eq in E; congruence|done].
    + apply Z.eqb_eq in E2 as ->. rewrite Z.eqb_refl.
      destruct (decide (c' = k)) as [->|Hne].
      * by rewrite Z.eqb_refl.
      * destruct (k =? c') eqn:E; [apply Z.eqb_eq in E; congruence|done].
    + apply Z.eqb_neq in E2.
      destruct (k =? c) eqn:E3; [apply Z.eqb_eq in E3; congruence|].
      rewrite (IH Hs').
      destruct (decide (c' = c)) as [->|Hne].
      * by rewrite E3.
      * done.
Qed.

(** Keys ascend strictly, and each key carries its group's maximum. *)
Lemma chr_grouped_spec data :
  StronglySorted Z.lt ((chr_grouped chr_col pos_col data).*1) /\
  forall c, glookup c (chr_grouped chr_col pos_col data) = chrom_max chr_col pos_col data c.
Proof.
  unfold chr_grouped. induction data as [|r data IH] using rev_ind.
  - split; [constructor|done].
  - destruct IH as [Hs Hl]. rewrite foldl_app. simpl. split.
    + by apply agg_max_sorted.
    + intros c. rewrite agg_max_lookup by done. rewrite chrom_max_snoc.
      destruct (decide (c = chr_col r)) as [->|Hne].
      * rewrite decide_True by done. by rewrite Hl.
      * rewrite decide_False by congruence. apply Hl.
Qed.

Lemma glookup_elem g k m :
  StronglySorted Z.lt (g.*1) -> (k, m) ∈ g -> glookup k g = Some m.
Proof.
  induction g as [|[k' m'] g IH]; intros Hs Hin.
  - by apply elem_of_nil in Hin.
  - inversion Hs as [|? ? Hs' Hall]; subst. simpl.
    apply elem_of_cons in Hin as [[= -> ->]|Hin]; [by rewrite Z.eqb_refl|].
    destruct (k' =? k) eqn:E; [|by apply IH].
    apply Z.eqb_eq in E as ->. rewrite Forall_forall in Hall.
    assert (k < k); [|lia]. apply Hall, list_elem_of_fmap. by exists (k, m).
Qed.

Lemma glookup_keys g k : is_Some (glookup k g) <-> k ∈ g.*1.
Proof.
  induction g as [|[k' m'] g IH]; simpl.
  - rewrite elem_of_nil. split; [by intros [? ?]|done].
  - rewrite elem_of_cons. destruct (k' =? k) eqn:E.
    + apply Z.eqb_eq in E as ->. split; eauto.
    + apply Z.eqb_neq in E. rewrite IH. split; [tauto|]. intros [?|?]; [congruence|done].
Qed.

(** *** Cumulative lengths *)

(** In the table of cumulative lengths a chromosome has one entry: the
    sum of the lengths listed before it. *)
Lemma cumulative_entry g c acc :
  StronglySorted Z.lt (g.*1) -> c ∈ g.*1 ->
  filter (fun e : Z * Z => e.1 = c) (zip (g.*1) (sums_before acc (g.*2))) =
    [(c, acc + sum_Z ((filter (fun e : Z * Z => e.1 < c) g).*2))].
Proof.
  revert acc. induction g as [|[k m] g IH]; intros acc Hs Hc.
  - by apply elem_of_nil in Hc.
  - inversion Hs as [|? ? Hs' Hall]; subst. rewrite Forall_forall in Hall.
    rewrite !fmap_cons in *. cbn [fst snd sums_before zip_with] in *.
    rewrite !filter_cons. cbn [fst snd].
    apply elem_of_cons in Hc as [->|Hc].
    + rewrite (filter_none (fun e : Z * Z => e.1 = k)).
      2:{ apply Forall_forall. intros [k' v] Hin. simpl. intros ->.
          apply elem_of_zip_l in Hin. specialize (Hall _ Hin). lia. }
      rewrite (filter_none (fun e : Z * Z => e.1 < k)).
      2:{ apply Forall_forall. intros [k' v] Hin. simpl. intros Hlt.
          assert (k < k'); [|lia]. apply Hall, list_elem_of_fmap. by exists (k', v). }
      repeat case_decide; try lia; try done.
      unfold sum_Z. simpl. by rewrite Z.add_0_r.
    + specialize (Hall _ Hc) as Hlt.
      rewrite (IH (acc + m) Hs' Hc).
      repeat case_decide; try lia.
      unfold sum_Z. simpl. by rewrite Z.add_assoc.
Qed.

Lemma cumulativechrlength_entry g c :
  StronglySorted Z.lt (g.*1) -> c ∈ g.*1 ->
  filter (fun e : Z * Z => e.1 = c) (cumulativechrlength g) =
    [(c, sum_Z ((filter (fun e : Z * Z => e.1 < c) g).*2))].
Proof.
  intros Hs Hc. unfold cumulativechrlength, cumsum.
  rewrite cumsum_from_sub, cumulative_entry by done. by rewrite Z.add_0_l.
Qed.

(** The listed lengths before [c] add up to the layout's offset. *)
Lemma sum_before_offset data c :
  sum_Z ((filter (fun e : Z * Z => e.1 < c) (chr_grouped chr_col pos_col data)).*2) =
    cumulative_offset chr_col pos_col data c.
Proof.
  destruct (chr_grouped_spec data) as [Hs Hl].
  set (g := chr_grouped chr_col pos_col data) in *.
  unfold cumulative_offset.
  transitivity (sum_Z (map (chrom_length chr_col pos_col data)
                          (filter (fun c' => c' < c) (g.*1)))).
  - assert (Forall (fun e : Z * Z => chrom_length chr_col pos_col data e.1 = e.2) g) as Hlen.
    { apply Forall_forall. intros [k m] Hin. simpl. unfold chrom_length.
      by rewrite <- Hl, (glookup_elem g k m). }
    clear Hs Hl. induction Hlen as [|[k m] g' Hk _ IH]; [done|].
    rewrite fmap_cons, !filter_cons. cbn [fst snd] in *.
    case_decide; [|done].
    rewrite fmap_cons. cbn [map snd]. by rewrite !sum_Z_cons, IH, Hk.
  - apply sum_Z_perm, Permutation_map.
    apply (filter_Permutation (fun c' => c' < c)).
    apply NoDup_Permutation.
    + by apply ascending_NoDup.
    + apply NoDup_remove_dups.
    + intros k. rewrite elem_of_remove_dups, <- glookup_keys, Hl.
      apply chrom_max_Some.
Qed.

(** *** The join and the result *)

Lemma merge_offsets data l :
  l ⊆ data ->
  merge chr_col l (cumulativechrlength (chr_grouped chr_col pos_col data)) =
    map (fun r => (r, cumulative_offset chr_col pos_col data (chr_col r))) l.
Proof.
  destruct (chr_grouped_spec data) as [Hs Hl].
  unfold merge. induction l as [|r l IH]; intros Hsub; [done|].
  simpl. rewrite IH by (intros x Hx; apply Hsub; by right).
  rewrite cumulativechrlength_entry; [|done|].
  - simpl. by rewrite sum_before_offset.
  - apply glookup_keys. rewrite Hl. apply chrom_max_Some.
    apply list_elem_of_In, in_map, list_elem_of_In, Hsub. by left.
Qed.

Lemma compute_relative_pos_perm data :
  compute_relative_pos chr_col pos_col p_col data ≡ₚ map (place chr_col pos_col p_col data) data.
Proof.
  unfold compute_relative_pos, sort_values.
  rewrite stable_sort_perm, merge_offsets by done.
  by rewrite map_map.
Qed.

Lemma compute_relative_pos_elem data d :
  d ∈ compute_relative_pos chr_col pos_col p_col data <->
  exists r, r ∈ data /\ d = place chr_col pos_col p_col data r.
Proof.
  rewrite compute_relative_pos_perm, list_elem_of_In, in_map_iff.
  split; intros (r & H1 & H2); exists r; rewrite ?list_elem_of_In in *; auto.
Qed.

End Facts.
End CoordFacts.

(** *** Claims on the coordinate transformer *)

Module CoordClaims.
Import Coord CoordFacts.

Section Offsets.
Context {row : Type}.
Variable chr_col : row -> Z.
Variable pos_col : row -> Z.






End Offsets.





End CoordClaims.

(** ** 4.2 Confidence band *)

Module BandFacts.
Import Band.

Lemma band_step_length n k a mpts i :
  length (band_step n k a mpts i) = length mpts.
Proof. unfold band_step, set_col0, set_col1. by rewrite !length_alter. Qed.

(** One turn writes rows [i - 1] and [2k - i] and nothing else. *)
Lemma band_step_lookup n k a mpts i (p : nat) :
  1 <= i <= k ->
  band_step n k a mpts i !! p =
    if decide (p = Z.to_nat (k * 2 - i))
    then (fun _ => (x_at n i, lower_at n a i)) <$> mpts !! p
    else if decide (p = Z.to_nat (i - 1))
         then (fun _ => (x_at n i, upper_at n a i)) <$> mpts !! p
         else mpts !! p.
Proof.
  intros Hi. unfold band_step, set_col0, set_col1.
  rewrite !list_lookup_alter.
  repeat case_decide; subst; try lia; try done;
    destruct (mpts !! _); done.
Qed.

(** After the first [j] turns the rows of ranks [1..j] hold their
    final values. *)
Lemma band_loop n k a mpts0 (j : nat) :
  length mpts0 = Z.to_nat (k * 2) -> Z.of_nat j <= k ->
  let res := foldl (band_step n k a) mpts0 (seqZ 1 (Z.of_nat j)) in
  length res = length mpts0 /\
  forall i, 1 <= i <= Z.of_nat j ->
    res !! Z.to_nat (i - 1) = Some (x_at n i, upper_at n a i) /\
    res !! Z.to_nat (k * 2 - i) = Some (x_at n i, lower_at n a i).
Proof.
  intros Hlen. induction j as [|j IH]; intros Hj; simpl.
  - split; [done|]. intros i Hi. lia.
  - destruct IH as [IHlen IH]; [lia|].
    rewrite seqZ_S, foldl_app. simpl.
    set (prev := foldl (band_step n k a) mpts0 (seqZ 1 (Z.of_nat j))) in *.
    split; [by rewrite band_step_length|].
    intros i Hi.
    rewrite !band_step_lookup by lia.
    destruct (decide (i = 1 + Z.of_nat j)) as [->|Hne].
    + assert (is_Some (prev !! Z.to_nat (1 + Z.of_nat j - 1))) as [e1 He1]
        by (apply lookup_lt_is_Some; lia).
      assert (is_Some (prev !! Z.to_nat (k * 2 - (1 + Z.of_nat j)))) as [e2 He2]
        by (apply lookup_lt_is_Some; lia).
      rewrite He1, He2.
      repeat case_decide; try lia; done.
    + destruct (IH i ltac:(lia)) as [IH1 IH2].
      repeat case_decide; try lia; done.
Qed.

(** What the estimator returns for [n > 1] and a positive budget. *)
Lemma confidence_band_spec n conf_points a :
  1 < n -> 0 < conf_points ->
  exists mpts,
    confidence_band n conf_points a = inr mpts /\
    length mpts = Z.to_nat (2 * Z.min conf_points (n - 1)) /\
    forall i, 1 <= i <= Z.min conf_points (n - 1) ->
      mpts !! Z.to_nat (i - 1) = Some (x_at n i, upper_at n a i) /\
      mpts !! Z.to_nat (Z.min conf_points (n - 1) * 2 - i) =
        Some (x_at n i, lower_at n a i).
Proof.
  intros Hn Hb. unfold confidence_band, np_zeros.
  set (k := Z.min conf_points (n - 1)).
  assert (1 <= k) as Hk by (unfold k; lia).
  destruct (k * 2 <? 0) eqn:E; [apply Z.ltb_lt in E; lia|].
  eexists. split; [reflexivity|].
  pose proof (band_loop n k a (replicate (Z.to_nat (k * 2)) (0%R, 0%R)) (Z.to_nat k)) as H.
  rewrite length_replicate in H. rewrite Z2Nat.id in H by lia.
  destruct (H eq_refl ltac:(lia)) as [H1 H2].
  split; [rewrite H1; lia|]. exact H2.
Qed.

(** *** Real-number facts about the external functions *)

Open Scope R_scope.

Lemma ln_10_pos : 0 < ln 10.
Proof. rewrite <- ln_1. apply ln_increasing; lra. Qed.

Lemma neg_log10_inj (x y : R) : 0 < x -> 0 < y -> neg_log10 x = neg_log10 y -> x = y.
Proof.
  unfold neg_log10. intros Hx Hy H. apply ln_inv; [done..|].
  pose proof ln_10_pos.
  apply Ropp_eq_compat in H. rewrite !Ropp_involutive in H.
  apply (Rmult_eq_compat_r (ln 10)) in H.
  unfold Rdiv in H. rewrite !Rmult_assoc, Rinv_l, !Rmult_1_r in H by lra. done.
Qed.

Lemma beta_cdf_1_1 (x : R) : beta_cdf 1 1 x = x.
Proof. unfold beta_cdf. simpl. lra. Qed.

Lemma beta_cdf_1_2 (x : R) : beta_cdf 1 2 x = 2 * x - x * x.
Proof. unfold beta_cdf. simpl. lra. Qed.

(** Beta(1, 1) is the uniform distribution. *)
Lemma beta_ppf_1_1 (q : R) : 0 <= q <= 1 -> beta_ppf q 1 1 = q.
Proof.
  intros Hq. unfold beta_ppf.
  match goal with |- epsilon ?i ?P = _ =>
    assert (P (epsilon i P)) as [_ H]
  end.
  { apply epsilon_spec. exists q. split; [done|]. apply beta_cdf_1_1. }
  change (Z.to_nat 1) with 1%nat in H. by rewrite beta_cdf_1_1 in H.
Qed.

(** The quantile of Beta(1, 2) solves [2 y - y^2 = q]. *)
Lemma beta_ppf_1_2 (q : R) :
  0 <= q <= 1 ->
  0 <= beta_ppf q 1 2 <= 1 /\ 2 * beta_ppf q 1 2 - beta_ppf q 1 2 * beta_ppf q 1 2 = q.
Proof.
  intros Hq. unfold beta_ppf.
  match goal with |- context [epsilon ?i ?P] =>
    assert (P (epsilon i P)) as [Hr H]
  end.
  { apply epsilon_spec. exists (1 - sqrt (1 - q)).
    assert (0 <= sqrt (1 - q)) by apply sqrt_pos.
    assert (sqrt (1 - q) <= 1).
    { pose proof (sqrt_le_1_alt (1 - q) 1 ltac:(lra)) as H'.
      by rewrite sqrt_1 in H'. }
    split; [lra|].
    change (Z.to_nat 1) with 1%nat. change (Z.to_nat 2) with 2%nat.
    rewrite beta_cdf_1_2.
    pose proof (sqrt_sqrt (1 - q) ltac:(lra)). nra. }
  change (Z.to_nat 1) with 1%nat in H. change (Z.to_nat 2) with 2%nat in H.
  rewrite beta_cdf_1_2 in H. done.
Qed.

Close Scope R_scope.

End BandFacts.

(** *** Claims on the confidence band *)

Module BandClaims.
Import Band BandFacts.

(** C1, as the code has it.  For every [n > 1], positive budget and rank
    [i] in [1..k] (k the capped budget), the band holds at row [i - 1]
    the point (x_i, upper_i) and at row [2k - i] the point
    (x_i, lower_i), with x_i = -log10((i - 0.5) / n),
    upper_i = -log10(Beta_quantile(1 - alpha/2, i, n - i)) and
    lower_i = -log10(Beta_quantile(alpha/2, i, n - i)): the second shape
    parameter is n - i. *)
Theorem confidence_band_bounds (n conf_points : Z) (conf_alpha : R) (i : Z) :
  1 < n -> 0 < conf_points -> 1 <= i <= Z.min conf_points (n - 1) ->
  exists mpts,
    confidence_band n conf_points conf_alpha = inr mpts /\
    mpts !! Z.to_nat (i - 1) =
      Some (neg_log10 ((IZR i - 0.5) / IZR n),
            neg_log10 (beta_ppf (1 - conf_alpha / 2) i (n - i))) /\
    mpts !! Z.to_nat (Z.min conf_points (n - 1) * 2 - i) =
      Some (neg_log10 ((IZR i - 0.5) / IZR n),
            neg_log10 (beta_ppf (conf_alpha / 2) i (n - i))).
Proof.
  intros Hn Hb Hi.
  destruct (confidence_band_spec n conf_points conf_alpha Hn Hb) as (mpts & E & _ & H).
  exists mpts. split; [done|]. exact (H i Hi).
Qed.

Lemma confidence_band_bounds_witness :
  exists mpts,
    confidence_band 2 1500 0.05 = inr mpts /\
    mpts !! Z.to_nat (1 - 1) =
      Some (neg_log10 ((IZR 1 - 0.5) / IZR 2),
            neg_log10 (beta_ppf (1 - 0.05 / 2) 1 (2 - 1))) /\
    mpts !! Z.to_nat (Z.min 1500 (2 - 1) * 2 - 1) =
      Some (neg_log10 ((IZR 1 - 0.5) / IZR 2),
            neg_log10 (beta_ppf (0.05 / 2) 1 (2 - 1))).
Proof.
  apply (confidence_band_bounds 2 1500 0.05 1); simpl; lia.
Defined.

(** C1 as stated fails: for n = 2 and rank 1 the upper bound is the
    quantile of Beta(1, 1), not of Beta(1, 2). *)
Lemma confidence_band_upper_not_beta_n_minus_i_plus_1 :
  ~ (exists mpts,
       confidence_band 2 1500 0.05 = inr mpts /\
       snd <$> mpts !! 0%nat =
         Some (neg_log10 (beta_ppf (1 - 0.05 / 2) 1 (2 - 1 + 1)))).
Proof.
  intros (mpts & E & H).
  destruct (confidence_band_spec 2 1500 0.05 ltac:(lia) ltac:(lia)) as (mpts' & E' & _ & H').
  rewrite E in E'. injection E' as <-.
  destruct (H' 1 ltac:(lia)) as [Hu _].
  change (Z.to_nat (1 - 1)) with 0%nat in Hu. rewrite Hu in H. simpl in H.
  injection H as H. unfold upper_at in H.
  change (2 - 1) with 1 in H. change (1 + 1) with 2 in H.
  assert (0 <= 1 - 0.05 / 2 <= 1)%R as Hq by lra.
  pose proof (beta_ppf_1_1 _ Hq) as H1.
  pose proof (beta_ppf_1_2 _ Hq) as [Hr H2].
  rewrite H1 in H.
  apply neg_log10_inj in H; [|lra|].
  - rewrite <- H in H2. lra.
  - destruct Hr as [[Hr|Hr] _]; [done|]. rewrite <- Hr in H2. lra.
Qed.




End BandClaims.

(** ** 4.3 Thinning *)

Module ThinFacts.
Import Thin.

Section Dedup.
Context {A : Type} `{EqDecision A}.

Lemma drop_duplicates_from_length (seen l : list A) :
  (length (drop_duplicates_from seen l) <= length l)%nat.
Proof.
  revert seen. induction l as [|x l IH]; intros seen; simpl; [lia|].
  case_decide; [specialize (IH seen)|specialize (IH (x :: seen))]; simpl; lia.
Qed.

(** What survives was in the input, was not seen before, and occurs
    once. *)
Lemma drop_duplicates_from_elem (seen l : list A) (x : A) :
  x ∈ drop_duplicates_from seen l <-> x ∈ l /\ x ∉ seen.
Proof.
  revert seen. induction l as [|y l IH]; intros seen; simpl.
  - rewrite elem_of_nil. tauto.
  - case_decide as Hy.
    + rewrite IH, elem_of_cons. split; [tauto|].
      intros [[->|?] ?]; [done|tauto].
    + rewrite !elem_of_cons, IH, elem_of_cons. split.
      * intros [->|[? ?]]; [tauto|]. split; [tauto|]. tauto.
      * intros [[->|?] ?]; [tauto|].
        destruct (decide (x = y)); [tauto|]. right. tauto.
Qed.

Lemma drop_duplicates_from_NoDup (seen l : list A) :
  NoDup (drop_duplicates_from seen l).
Proof.
  revert seen. induction l as [|y l IH]; intros seen; simpl.
  - constructor.
  - case_decide; [apply IH|]. constructor; [|apply IH].
    rewrite drop_duplicates_from_elem, elem_of_cons. tauto.
Qed.

(** A list without repeats that avoids [seen] passes unchanged. *)
Lemma drop_duplicates_from_fixed (seen l : list A) :
  NoDup l -> Forall (fun x => x ∉ seen) l -> drop_duplicates_from seen l = l.
Proof.
  revert seen. induction l as [|y l IH]; intros seen Hnd Hall; simpl; [done|].
  apply NoDup_cons in Hnd as [Hy Hnd]. apply Forall_cons in Hall as [Hys Hall].
  rewrite decide_False by done. f_equal. apply IH; [done|].
  apply Forall_forall. intros x Hx. rewrite Forall_forall in Hall.
  rewrite elem_of_cons. intros [->|?]; [done|]. by apply (Hall x).
Qed.

Lemma drop_duplicates_idem (l : list A) :
  drop_duplicates (drop_duplicates l) = drop_duplicates l.
Proof.
  unfold drop_duplicates. apply drop_duplicates_from_fixed.
  - apply drop_duplicates_from_NoDup.
  - apply Forall_forall. intros x _. apply not_elem_of_nil.
Qed.

End Dedup.

(** *** Rounding *)

Open Scope R_scope.

Lemma rint_IZR (k : Z) : rint (IZR k) = k.
Proof.
  unfold rint. rewrite ZfloorZ.
  destruct (Rlt_dec (IZR k - IZR k) (1 / 2)) as [|Hn]; [done|].
  exfalso. apply Hn. lra.
Qed.

Lemma np_round_idem (x : R) (d : nat) : np_round (np_round x d) d = np_round x d.
Proof.
  unfold np_round at 1 3.
  assert (10 ^ d <> 0) as Hd by (apply pow_nonzero; lra).
  replace (np_round x d * 10 ^ d) with (IZR (rint (x * 10 ^ d))).
  - by rewrite rint_IZR.
  - unfold np_round. field. done.
Qed.

Close Scope R_scope.

(** *** The thinned table *)

Lemma zip_round (X : list (R * R)) :
  zip (map (fun v => np_round v 3) (X.*1)) (map (fun v => np_round v 3) (X.*2)) =
    map round3 X.
Proof. induction X as [|[a b] X IH]; simpl; [done|]. f_equal. exact IH. Qed.

Lemma thin_rounded (log_p exp_x : list R) :
  Forall (fun e => round3 e = e) (thin log_p exp_x).
Proof.
  unfold thin, drop_duplicates. apply Forall_forall. intros e He.
  apply drop_duplicates_from_elem in He as [He _].
  destruct e as [a b]. apply elem_of_zip_l in He as Ha.
  apply elem_of_zip_r in He as Hb.
  apply list_elem_of_In, in_map_iff in Ha as (a' & <- & _).
  apply list_elem_of_In, in_map_iff in Hb as (b' & <- & _).
  unfold round3. simpl. by rewrite !np_round_idem.
Qed.

Lemma thin_pairs_eq (X : list (R * R)) :
  thin_pairs X = drop_duplicates (map round3 X).
Proof. unfold thin_pairs, thin. by rewrite zip_round. Qed.

Lemma thin_pairs_thin (log_p exp_x : list R) :
  thin_pairs (thin log_p exp_x) = thin log_p exp_x.
Proof.
  rewrite thin_pairs_eq.
  rewrite (map_ext_Forall (l := thin log_p exp_x) round3 (fun e => e))
    by apply thin_rounded.
  rewrite map_id. unfold thin. apply drop_duplicates_idem.
Qed.

Lemma thin_length (log_p exp_x : list R) :
  (length (thin log_p exp_x) <= length log_p)%nat /\
  (length (thin log_p exp_x) <= length exp_x)%nat.
Proof.
  unfold thin, drop_duplicates.
  pose proof (drop_duplicates_from_length []
    (zip (map (fun v => np_round v 3) log_p) (map (fun v => np_round v 3) exp_x))) as H.
  rewrite length_zip_with, !length_map in H. lia.
Qed.

(** C5. Thinning an already thinned table changes nothing, and thinning
    never makes a table longer; this holds for the two columns
    [qq_plot] builds and for any table of pairs. *)
Theorem thin_idempotent :
  (forall log_p exp_x : list R,
      thin ((thin log_p exp_x).*1) ((thin log_p exp_x).*2) = thin log_p exp_x /\
      (length (thin log_p exp_x) <= length log_p)%nat /\
      (length (thin log_p exp_x) <= length exp_x)%nat) /\
  (forall X : list (R * R),
      thin_pairs (thin_pairs X) = thin_pairs X /\
      (length (thin_pairs X) <= length X)%nat).
Proof.
  split.
  - intros log_p exp_x. split; [apply thin_pairs_thin|apply thin_length].
  - intros X. unfold thin_pairs at 2 3 4. split; [apply thin_pairs_thin|].
    pose proof (thin_length (X.*1) (X.*2)) as [H _].
    by rewrite length_fmap in H.
Qed.

End ThinFacts.

(** ** 4.4 Variant classifier *)

Module ClassifierFacts.
Import Classifier.

Section Facts.
Context {row : Type}.
Variable snp : row -> string.

Lemma merge_inner_elem top bottom r :
  r ∈ merge_inner snp top bottom <-> r ∈ top /\ snp r ∈ map snp bottom.
Proof.
  unfold merge_inner. rewrite list_elem_of_In, in_flat_map. split.
  - intros (t & Ht & Hr). apply list_elem_of_In in Ht.
    apply list_elem_of_In, elem_of_map in Hr as (b & -> & Hb).
    apply list_elem_of_filter in Hb as [Hb Hin].
    split; [done|]. rewrite <- Hb. by apply elem_of_map_2.
  - intros [Ht Hs]. exists r. split; [by apply list_elem_of_In|].
    apply elem_of_map in Hs as (b & Hb & Hin).
    apply list_elem_of_In, elem_of_map. exists b. split; [done|].
    by apply list_elem_of_filter.
Qed.

Lemma merge_inner_nil_r top : merge_inner snp top [] = [].
Proof. unfold merge_inner. induction top as [|t top IH]; [done|]. exact IH. Qed.

Lemma not_isin_elem df other r :
  r ∈ not_isin snp df other <-> r ∈ df /\ snp r ∉ map snp other.
Proof. unfold not_isin. rewrite list_elem_of_filter. tauto. Qed.

Lemma elem_of_ids df (x : string) : x ∈ ids snp df <-> x ∈ map snp df.
Proof. unfold ids. apply elem_of_list_to_set. Qed.

Lemma ids_merge_inner top bottom :
  ids snp (merge_inner snp top bottom) = ids snp top ∩ ids snp bottom.
Proof.
  apply set_eq. intros x. rewrite elem_of_intersection, !elem_of_ids.
  rewrite (elem_of_map snp (merge_inner snp top bottom)). split.
  - intros (r & -> & Hr). apply merge_inner_elem in Hr as [Ht Hb].
    split; [by apply elem_of_map_2|done].
  - intros [Ht Hb]. apply elem_of_map in Ht as (t & -> & Ht).
    exists t. split; [done|]. by apply merge_inner_elem.
Qed.

Lemma ids_not_isin df other :
  ids snp (not_isin snp df other) = ids snp df ∖ ids snp other.
Proof.
  apply set_eq. intros x. rewrite elem_of_difference, !elem_of_ids.
  rewrite (elem_of_map snp (not_isin snp df other)). split.
  - intros (r & -> & Hr). apply not_isin_elem in Hr as [Ht Hb].
    split; [by apply elem_of_map_2|done].
  - intros [Ht Hb]. apply elem_of_map in Ht as (t & -> & Ht).
    exists t. split; [done|]. by apply not_isin_elem.
Qed.

(** *** The three groups of the result *)

Lemma group_app c (a b : list (row * category)) :
  group c (a ++ b) = group c a ++ group c b.
Proof. unfold group. by rewrite filter_app, fmap_app. Qed.

Lemma group_set_type c c' (l : list row) :
  group c (set_type c' l) = if decide (c' = c) then l else [].
Proof.
  unfold group, set_type. destruct (decide (c' = c)) as [->|E].
  - induction l as [|r l IH]; simpl; [done|].
    rewrite filter_cons. case_decide; [|done]. simpl. f_equal. exact IH.
  - induction l as [|r l IH]; simpl; [done|].
    rewrite filter_cons. case_decide; [done|]. exact IH.
Qed.

Lemma groups_classify top bottom :
  group on_both (classify_annotations snp top bottom) = merge_inner snp top bottom /\
  group top_in_bottom (classify_annotations snp top bottom) = not_isin snp top bottom /\
  group bottom_in_top (classify_annotations snp top bottom) = not_isin snp bottom top.
Proof.
  unfold classify_annotations. rewrite !group_app, !group_set_type. simpl.
  by rewrite !app_nil_r.
Qed.

(** *** Tables without repeated ids *)

Lemma matches_unique bottom (t : row) :
  NoDup (map snp bottom) ->
  map (fun _ : row => t) (filter (fun b => snp b = snp t) bottom) =
    if decide (snp t ∈ map snp bottom) then [t] else [].
Proof.
  intros Hb. destruct (decide (snp t ∈ map snp bottom)) as [Hin|Hout].
  - induction bottom as [|b bottom IHb]; [by apply elem_of_nil in Hin|].
    simpl in Hb. apply NoDup_cons in Hb as [Hnb Hb].
    rewrite filter_cons. destruct (decide (snp b = snp t)) as [E|E].
    + rewrite (filter_none (fun b0 => snp b0 = snp t)); [done|].
      apply Forall_forall. intros b' Hb' E'. apply Hnb. rewrite E, <- E'.
      by apply elem_of_map_2.
    + apply IHb; [done|]. simpl in Hin.
      apply elem_of_cons in Hin as [Hin|Hin]; [congruence|done].
  - rewrite (filter_none (fun b => snp b = snp t)); [done|].
    apply Forall_forall. intros b Hb' E. apply Hout. rewrite <- E.
    by apply elem_of_map_2.
Qed.

Lemma merge_inner_unique top bottom :
  NoDup (map snp bottom) ->
  merge_inner snp top bottom = filter (fun t => snp t ∈ map snp bottom) top.
Proof.
  intros Hb. unfold merge_inner. induction top as [|t top IH]; [done|].
  simpl. rewrite IH, filter_cons, matches_unique by done.
  by destruct (decide (snp t ∈ map snp bottom)).
Qed.

Lemma NoDup_map_filter (P : row -> Prop) `{forall r, Decision (P r)} (l : list row) :
  NoDup (map snp l) -> NoDup (map snp (filter P l)).
Proof.
  induction l as [|r l IH]; simpl; [done|]. intros Hnd.
  apply NoDup_cons in Hnd as [Hr Hnd]. rewrite filter_cons.
  destruct (decide (P r)); [|by apply IH]. simpl. apply NoDup_cons. split; [|by apply IH].
  intros Hin. apply Hr. apply elem_of_map in Hin as (r' & E & Hin).
  apply list_elem_of_filter in Hin as [_ Hin].
  rewrite E. by apply elem_of_map_2.
Qed.

Lemma size_ids_unique (l : list row) :
  NoDup (map snp l) -> size (ids snp l) = length l.
Proof. intros Hnd. unfold ids. by rewrite size_list_to_set, length_map. Qed.

End Facts.

(** Two sets split into what they share and what each has alone. *)
Lemma inter_diff_partition (T B : gset string) :
  ((T ∩ B) ## (T ∖ B) /\ (T ∩ B) ## (B ∖ T) /\ (T ∖ B) ## (B ∖ T)) /\
  (T ∩ B) ∪ (T ∖ B) ∪ (B ∖ T) = T ∪ B /\
  (size (T ∩ B) + size (T ∖ B) + size (B ∖ T) = size (T ∪ B))%nat.
Proof.
  assert ((T ∩ B) ## (T ∖ B)) as D1.
  { apply elem_of_disjoint. intros x.
    rewrite elem_of_intersection, elem_of_difference. tauto. }
  assert ((T ∩ B) ## (B ∖ T)) as D2.
  { apply elem_of_disjoint. intros x.
    rewrite elem_of_intersection, elem_of_difference. tauto. }
  assert ((T ∖ B) ## (B ∖ T)) as D3.
  { apply elem_of_disjoint. intros x. rewrite !elem_of_difference. tauto. }
  assert ((T ∩ B) ∪ (T ∖ B) ∪ (B ∖ T) = T ∪ B) as U.
  { apply set_eq. intros x.
    rewrite !elem_of_union, elem_of_intersection, !elem_of_difference.
    destruct (decide (x ∈ T)), (decide (x ∈ B)); tauto. }
  split; [done|]. split; [done|].
  rewrite <- U.
  rewrite (size_union (T ∩ B ∪ T ∖ B) (B ∖ T)).
  - by rewrite (size_union (T ∩ B) (T ∖ B)).
  - apply elem_of_disjoint. intros x.
    rewrite elem_of_union, elem_of_intersection, !elem_of_difference. tauto.
Qed.

(** C3. For every pair of annotation tables the id sets of the three
    groups are pairwise disjoint, their union is the union of the two
    input id sets and their sizes add up to the size of that union; the
    rows of [on_both] are rows of the top table; when no id repeats
    inside a table the row counts add up to that size too; an empty
    side gives an empty join and passes the other side through. *)
Theorem classify_annotations_partition {row : Type} (snp : row -> string)
    (top bottom : list row) :
  let out := classify_annotations snp top bottom in
  let both := ids snp (group on_both out) in
  let top_only := ids snp (group top_in_bottom out) in
  let bottom_only := ids snp (group bottom_in_top out) in
  (both ## top_only /\ both ## bottom_only /\ top_only ## bottom_only) /\
  both ∪ top_only ∪ bottom_only = ids snp top ∪ ids snp bottom /\
  (size both + size top_only + size bottom_only = size (ids snp top ∪ ids snp bottom))%nat /\
  Forall (fun r => r ∈ top) (group on_both out) /\
  (NoDup (map snp top) -> NoDup (map snp bottom) ->
   (length (group on_both out) + length (group top_in_bottom out)
    + length (group bottom_in_top out) = size (ids snp top ∪ ids snp bottom))%nat) /\
  classify_annotations snp [] bottom = set_type bottom_in_top bottom /\
  classify_annotations snp top [] = set_type top_in_bottom top.
Proof.
  intros out both top_only bottom_only.
  destruct (groups_classify snp top bottom) as (E1 & E2 & E3).
  subst both top_only bottom_only out. rewrite E1, E2, E3.
  rewrite ids_merge_inner, !ids_not_isin.
  destruct (inter_diff_partition (ids snp top) (ids snp bottom)) as ((D1 & D2 & D3) & U & S).
  split; [done|]. split; [done|]. split; [done|]. split.
  { apply Forall_forall. intros r Hr. by apply merge_inner_elem in Hr as [? _]. }
  split.
  { intros Ht Hb. rewrite <- S.
    rewrite <- ids_merge_inner, <- !ids_not_isin.
    rewrite !size_ids_unique; [done|..].
    - unfold not_isin. by apply NoDup_map_filter.
    - unfold not_isin. by apply NoDup_map_filter.
    - rewrite merge_inner_unique by done. by apply NoDup_map_filter. }
  split.
  - unfold classify_annotations, merge_inner, not_isin. simpl.
    rewrite filter_all; [done|].
    apply Forall_forall. intros r _. apply not_elem_of_nil.
  - unfold classify_annotations, not_isin. rewrite merge_inner_nil_r. simpl.
    rewrite app_nil_r.
    rewrite filter_all; [done|].
    apply Forall_forall. intros r _. apply not_elem_of_nil.
Qed.

Lemma classify_annotations_partition_witness :
  (length (group on_both (classify_annotations (fun s => s) ABC BCD))
   + length (group top_in_bottom (classify_annotations (fun s => s) ABC BCD))
   + length (group bottom_in_top (classify_annotations (fun s => s) ABC BCD))
   = size (ids (fun s => s) ABC ∪ ids (fun s => s) BCD))%nat.
Proof.
  destruct (classify_annotations_partition (fun s => s) ABC BCD)
    as (_ & _ & _ & _ & H & _).
  apply H; apply (bool_decide_unpack _); vm_compute; exact I.
Defined.

(** The scenario: top = {A, B, C}, bottom = {B, C, D}. *)
Example classify_scenario :
  classify_annotations (fun s => s) ABC BCD =
    [("B", on_both); ("C", on_both); ("A", top_in_bottom); ("D", bottom_in_top)]%string.
Proof. reflexivity. Qed.

End ClassifierFacts.

(** ** Reasoning about plotting calls *)

Section Triples.
Context {A B : Type}.

Lemma triple_bind (P : world -> Prop) (m : M A) (k : A -> M B)
    (R : A -> world -> Prop) (Q : B -> world -> Prop) (E : exn -> world -> Prop) :
  triple P m R E -> (forall a, triple (R a) (k a) Q E) -> triple P (m ≫= k) Q E.
Proof.
  intros Hm Hk w Hw. specialize (Hm w Hw).
  unfold mbind, M_bind. destruct (m w) as [w' [e|a]]; [done|].
  by apply Hk.
Qed.

Lemma triple_conseq (P P' : world -> Prop) (m : M A)
    (Q Q' : A -> world -> Prop) (E E' : exn -> world -> Prop) :
  triple P' m Q' E' ->
  (forall w, P w -> P' w) -> (forall a w, Q' a w -> Q a w) ->
  (forall e w, E' e w -> E e w) ->
  triple P m Q E.
Proof.
  intros Hm HP HQ HE w Hw. specialize (Hm w (HP w Hw)).
  destruct (m w) as [w' [e|a]]; auto.
Qed.

Lemma triple_ret (P : world -> Prop) (a : A) (Q : A -> world -> Prop) E :
  (forall w, P w -> Q a w) -> triple P (mret a) Q E.
Proof. intros H w Hw. by apply H. Qed.

Lemma triple_raise (P : world -> Prop) (e : exn) (Q : A -> world -> Prop) E :
  (forall w, P w -> E e w) -> triple P (raise e) Q E.
Proof. intros H w Hw. by apply H. Qed.

Lemma triple_lift (P : world -> Prop) (r : exn + A) (Q : A -> world -> Prop) E :
  (forall w, P w -> match r with inr a => Q a w | inl e => E e w end) ->
  triple P (lift r) Q E.
Proof. intros H w Hw. specialize (H w Hw). unfold lift. by destruct r. Qed.

Lemma triple_local (P : world -> Prop) (v : option A) (Q : A -> world -> Prop) E :
  (forall w, P w -> match v with Some a => Q a w | None => E UnboundLocalError w end) ->
  triple P (local v) Q E.
Proof. intros H w Hw. specialize (H w Hw). unfold local. by destruct v. Qed.
End Triples.

Lemma triple_load (P : world -> Prop) (l : positive) (Q : DataFrame -> world -> Prop) E :
  (forall w, P w -> Q (frames w !!! l) w) -> triple P (load l) Q E.
Proof. intros H w Hw. by apply H. Qed.

Lemma triple_getcol (P : world -> Prop) df c (Q : list cell -> world -> Prop) E :
  (forall w, P w -> match getitem df c with inr a => Q a w | inl e => E e w end) ->
  triple P (getcol df c) Q E.
Proof. apply triple_lift. Qed.

Lemma triple_floats (P : world -> Prop) df c (Q : list R -> world -> Prop) E :
  (forall w, P w ->
     match getitem df c with inr a => Q (map as_float a) w | inl e => E e w end) ->
  triple P (floats df c) Q E.
Proof.
  intros H. unfold floats.
  eapply triple_bind; [apply triple_getcol; exact H|].
  intros a. by apply triple_ret.
Qed.

Lemma triple_draw I (a : artist) E :
  figure_blind I -> triple I (draw a) (fun _ => I) E.
Proof. intros HI w Hw. by apply HI. Qed.

Lemma triple_new_figure I E :
  figure_blind I -> triple I new_figure (fun _ => I) E.
Proof. intros HI w Hw. by apply HI. Qed.

Lemma triple_foldM {A S} (I : world -> Prop) (f : S -> A -> M S) (s : S) (l : list A) E :
  (forall s a, a ∈ l -> triple I (f s a) (fun _ => I) E) ->
  triple I (foldM f s l) (fun _ => I) E.
Proof.
  revert s. induction l as [|a l IH]; intros s Hf; simpl.
  - by apply triple_ret.
  - eapply triple_bind; [apply Hf; left|]. intros s'. apply IH.
    intros s0 a0 Ha0. apply Hf. by right.
Qed.

Lemma same_store_blind w0 : figure_blind (same_store w0).
Proof. by intros w fig (? & ? & ?). Qed.

Lemma getitem_ok df c :
  c ∈ columns df -> getitem df c = inr (map (fun r => r !!! c) (records df)).
Proof. intros H. unfold getitem. by rewrite decide_True. Qed.

Lemma columns_setitem df c vals c' :
  c' ∈ columns (setitem df c vals) <-> c' = c \/ c' ∈ columns df.
Proof.
  unfold setitem. simpl. destruct (decide (c ∈ columns df)) as [Hc|Hc].
  - split; [tauto|]. intros [->|?]; done.
  - rewrite elem_of_app, list_elem_of_singleton. tauto.
Qed.

(** *** Calls that keep an invariant *)

Section Preserves.
Variable I : world -> Prop.
Hypothesis I_blind : figure_blind I.

Lemma pres_bind {A B} (m : M A) (k : A -> M B) :
  preserves I m -> (forall a, preserves I (k a)) -> preserves I (m ≫= k).
Proof. intros Hm Hk. eapply triple_bind; [exact Hm|exact Hk]. Qed.

Lemma triple_bind_pres {A B} (m : M A) (k : A -> M B) (Q : B -> world -> Prop) :
  preserves I m -> (forall a, triple I (k a) Q (fun _ => I)) ->
  triple I (m ≫= k) Q (fun _ => I).
Proof. intros Hm Hk. eapply triple_bind; [exact Hm|exact Hk]. Qed.

Lemma pres_ret {A} (a : A) : preserves I (mret a).
Proof. by apply triple_ret. Qed.

Lemma pres_raise {A} (e : exn) : preserves I (raise e : M A).
Proof. by apply triple_raise. Qed.

Lemma pres_lift {A} (r : exn + A) : preserves I (lift r).
Proof. apply triple_lift. intros w Hw. by destruct r. Qed.

Lemma pres_local {A} (v : option A) : preserves I (local v).
Proof. apply triple_local. intros w Hw. by destruct v. Qed.

Lemma pres_load l : preserves I (load l).
Proof. by apply triple_load. Qed.

Lemma pres_getcol df c : preserves I (getcol df c).
Proof. apply pres_lift. Qed.

Lemma pres_floats df c : preserves I (floats df c).
Proof. apply pres_bind; [apply pres_getcol|intros; apply pres_ret]. Qed.

Lemma pres_draw a : preserves I (draw a).
Proof. by apply triple_draw. Qed.

Lemma pres_new_figure : preserves I new_figure.
Proof. by apply triple_new_figure. Qed.

Lemma pres_foldM {A S} (f : S -> A -> M S) (s : S) (l : list A) :
  (forall s a, preserves I (f s a)) -> preserves I (foldM f s l).
Proof. intros Hf. apply triple_foldM. intros. apply Hf. Qed.
End Preserves.

(** Walks through a composer, one call at a time. *)
Ltac pres_step :=
  lazymatch goal with
  | |- preserves _ (_ ≫= _) => apply pres_bind; [|intros]
  | |- preserves _ (mret _) => apply pres_ret
  | |- preserves _ (raise _) => apply pres_raise
  | |- preserves _ (lift _) => apply pres_lift
  | |- preserves _ (local _) => apply pres_local
  | |- preserves _ (load _) => apply pres_load
  | |- preserves _ (getcol _ _) => apply pres_getcol
  | |- preserves _ (floats _ _) => apply pres_floats
  | |- preserves _ (draw _) => apply pres_draw; assumption
  | |- preserves _ new_figure => apply pres_new_figure; assumption
  | |- preserves _ (foldM _ _ _) => apply pres_foldM; intros
  | |- preserves _ (match ?x with _ => _ end) => destruct x
  | |- preserves _ (let _ := _ in _) => cbv zeta
  end.

Ltac pres := repeat pres_step.

(** *** Calls that are known to return *)

Lemma bind_assoc {A B C} (m : M A) (f : A -> M B) (k : B -> M C) (w : world) :
  ((m ≫= f) ≫= k) w = (m ≫= (fun a => f a ≫= k)) w.
Proof. unfold mbind, M_bind. by destruct (m w) as [w' [e|a]]. Qed.

Section Steps.
Context {B : Type}.
Variable I : world -> Prop.
Variable Q : B -> world -> Prop.
Variable E : exn -> world -> Prop.

Lemma step_assoc {A A'} (m : M A) (f : A -> M A') (k : A' -> M B) :
  triple I (m ≫= (fun a => f a ≫= k)) Q E -> triple I ((m ≫= f) ≫= k) Q E.
Proof. intros H w Hw. rewrite bind_assoc. by apply H. Qed.

Lemma step_ret {A} (a : A) (k : A -> M B) :
  triple I (k a) Q E -> triple I (mret a ≫= k) Q E.
Proof. intros H w Hw. by apply H. Qed.

Lemma step_local {A} (a : A) (k : A -> M B) :
  triple I (k a) Q E -> triple I (local (Some a) ≫= k) Q E.
Proof. intros H w Hw. by apply H. Qed.

Lemma step_load (l : positive) (df : DataFrame) (k : DataFrame -> M B) :
  (forall w, I w -> frames w !!! l = df) ->
  triple I (k df) Q E -> triple I (load l ≫= k) Q E.
Proof.
  intros Hl H w Hw. unfold mbind, M_bind, load. rewrite (Hl w Hw). by apply H.
Qed.

Lemma step_lift {A} (r : exn + A) (a : A) (k : A -> M B) :
  r = inr a -> triple I (k a) Q E -> triple I (lift r ≫= k) Q E.
Proof. intros -> H w Hw. by apply H. Qed.

Lemma step_getcol df c (k : list cell -> M B) :
  c ∈ columns df ->
  triple I (k (map (fun r => r !!! c) (records df))) Q E ->
  triple I (getcol df c ≫= k) Q E.
Proof. intros Hc. apply step_lift. by apply getitem_ok. Qed.

Lemma step_floats df c (k : list R -> M B) :
  c ∈ columns df ->
  triple I (k (map as_float (map (fun r => r !!! c) (records df)))) Q E ->
  triple I (floats df c ≫= k) Q E.
Proof.
  intros Hc H. unfold floats. apply step_assoc.
  apply step_getcol; [done|]. by apply step_ret.
Qed.

Lemma step_draw a (k : unit -> M B) :
  figure_blind I -> triple I (k tt) Q E -> triple I (draw a ≫= k) Q E.
Proof. intros HI H w Hw. apply H. by apply HI. Qed.

Lemma step_new_figure (k : unit -> M B) :
  figure_blind I -> triple I (k tt) Q E -> triple I (new_figure ≫= k) Q E.
Proof. intros HI H w Hw. apply H. by apply HI. Qed.
End Steps.

(** [savefig] adds one file, or fails and leaves the world as it was. *)
Lemma triple_savefig (P : world -> Prop) (d name : string)
    (Q : unit -> world -> Prop) (E : exn -> world -> Prop) :
  (forall w, P w ->
     (d ∈ dirs w ->
      Q tt (mkWorld (frames w) (figure w) (dirs w) (files w ++ [path_join d name]))) /\
     (d ∉ dirs w -> E FileNotFoundError w)) ->
  triple P (savefig d name) Q E.
Proof.
  intros H w Hw. unfold savefig. destruct (H w Hw) as [H1 H2].
  destruct (decide (d ∈ dirs w)); auto.
Qed.

Lemma frames_kept_blind w0 : figure_blind (frames_kept w0).
Proof. by intros w fig H. Qed.

Lemma files_kept_blind w0 : figure_blind (files_kept w0).
Proof. by intros w fig H. Qed.

Lemma pres_savefig_frames w0 d name : preserves (frames_kept w0) (savefig d name).
Proof. apply triple_savefig. intros w Hw. by split. Qed.

(** ** The Manhattan composer *)

Module ManhattanFacts.
Import Manhattan.

Section Invariant.
Variable I : world -> Prop.
Hypothesis I_blind : figure_blind I.

Lemma pres_draw_chrom_groups ax groups h :
  preserves I (draw_chrom_groups ax groups h).
Proof. unfold draw_chrom_groups. pres. Qed.

Lemma pres_annotate_plot args : preserves I (annotate_plot args).
Proof. unfold annotate_plot, annotate_plot_body. pres. Qed.

(** Everything before the final branch on [plots_dir] keeps a
    figure-blind invariant, so a property of the whole call follows
    from one of that branch. *)
Lemma manhattan_plot_tail df_gwas plots_dir df_annot annotate
    (Q : pyret -> world -> Prop) :
  (forall ax,
     triple I
       match plots_dir with
       | None => mret (RetAxes ax)
       | Some d =>
           draw TightLayout;; savefig d "manhattan_plot.png";; mret (RetBool true)
       end Q (fun _ => I)) ->
  triple I (manhattan_plot df_gwas plots_dir df_annot annotate) Q (fun _ => I).
Proof.
  intros Htail. unfold manhattan_plot.
  repeat lazymatch goal with
  | |- triple _ (match plots_dir with _ => _ end) _ _ => fail
  | |- triple _ (let _ := _ in _) _ _ => cbv zeta
  | |- triple _ (match ?x with _ => _ end) _ _ => destruct x
  | |- triple _ (_ ≫= _) _ _ =>
      apply (triple_bind_pres I);
      [pres; first [apply pres_draw_chrom_groups | apply pres_annotate_plot]
      |intros]
  end.
  all: apply Htail.
Qed.
End Invariant.

End ManhattanFacts.

(** *** Columns and rows of the derived tables *)

Lemma has_columns_elem cols df c : has_columns cols df -> c ∈ cols -> c ∈ columns df.
Proof. unfold has_columns. rewrite Forall_forall. auto. Qed.

Lemma columns_select keep df : columns (select keep df) = columns df.
Proof. done. Qed.

Lemma columns_sort_values df by_cols : columns (sort_values df by_cols) = columns df.
Proof. done. Qed.

Lemma records_setitem_length df c vals :
  length vals = length (records df) ->
  length (records (setitem df c vals)) = length (records df).
Proof. intros H. simpl. rewrite length_zip_with. lia. Qed.

Lemma records_sort_values_length df by_cols :
  length (records (sort_values df by_cols)) = length (records df).
Proof. simpl. apply Permutation_length, stable_sort_perm. Qed.

Lemma groupby_columns df c g : g ∈ groupby df c -> columns g.2 = columns df.
Proof.
  unfold groupby. intros (k & -> & _)%elem_of_map. done.
Qed.

Lemma py_max_ok (l : list R) : (0 < length l)%nat -> exists x, py_max l = inr x.
Proof. destruct l; simpl; [lia|eauto]. Qed.

Lemma py_min_ok (l : list R) : (0 < length l)%nat -> exists x, py_min l = inr x.
Proof. destruct l; simpl; [lia|eauto]. Qed.

Section MoreSteps.
Context {B : Type}.
Variable I : world -> Prop.
Variable Q : B -> world -> Prop.
Variable E : exn -> world -> Prop.

Lemma step_call {A} (m : M A) (a : A) (k : A -> M B) :
  triple I m (fun a' w => a' = a /\ I w) E ->
  triple I (k a) Q E -> triple I (m ≫= k) Q E.
Proof.
  intros Hm Hk w Hw. unfold mbind, M_bind. specialize (Hm w Hw).
  destruct (m w) as [w' [e|a']]; [done|]. destruct Hm as [-> Hw']. by apply Hk.
Qed.

Lemma step_lift_ex {A} (r : exn + A) (k : A -> M B) :
  (exists a, r = inr a) -> (forall a, triple I (k a) Q E) ->
  triple I (lift r ≫= k) Q E.
Proof. intros [a ->] H w Hw. by apply H. Qed.

Lemma step_raise {A} (e : exn) (k : A -> M B) :
  (forall w, I w -> E e w) -> triple I (raise e ≫= k) Q E.
Proof. intros H w Hw. by apply H. Qed.
End MoreSteps.

(** Side conditions on columns. *)
Ltac cols :=
  repeat first [rewrite columns_setitem | rewrite columns_select
               | rewrite columns_sort_values];
  solve [eauto 10 using has_columns_elem, list_elem_of_here, list_elem_of_further].

(** Runs a call whose steps are all known to return. *)
Ltac run_step :=
  lazymatch goal with
  | |- triple _ (let _ := _ in _) _ _ => cbv zeta
  | |- triple _ ((_ ≫= _) ≫= _) _ _ => apply step_assoc
  | |- triple _ (mret _ ≫= _) _ _ => apply step_ret
  | |- triple _ (local (Some _) ≫= _) _ _ => apply step_local
  | |- triple _ (getcol _ _ ≫= _) _ _ => apply step_getcol; [cols|]
  | |- triple _ (floats _ _ ≫= _) _ _ => apply step_floats; [cols|]
  | |- triple _ (draw _ ≫= _) _ _ => apply step_draw; [assumption|]
  | |- triple _ (new_figure ≫= _) _ _ => apply step_new_figure; [assumption|]
  end.

Ltac run := repeat run_step.

Module ManhattanRuns.
Import Manhattan.

Section Returns.
Variable I : world -> Prop.
Hypothesis I_blind : figure_blind I.
Variable E : exn -> world -> Prop.

(** With the columns it reads in place, [draw_chrom_groups] returns
    the axes it was given. *)
Lemma draw_chrom_groups_returns ax groups h :
  Forall (fun g => has_columns ["ind"; "log10P"]%string g.2) groups ->
  from_option (has_columns ["ind"; "log10P"]%string) True h ->
  triple I (draw_chrom_groups ax groups h) (fun a w => a = ax /\ I w) E.
Proof.
  intros Hg Hh. unfold draw_chrom_groups.
  eapply triple_bind with (R := fun _ => I).
  - apply triple_foldM. intros [x_labels x_labels_pos] [num [name group]] Hin.
    apply elem_of_lookup_imap in Hin as (i & g & [= -> Hg'] & Hi).
    rewrite Forall_forall in Hg. apply list_elem_of_lookup_2 in Hi.
    specialize (Hg _ Hi). rewrite <- Hg' in Hg. simpl in Hg.
    run. destruct h as [hd|]; simpl in Hh; run; by apply triple_ret.
  - intros _. by apply triple_ret.
Qed.
End Returns.

End ManhattanRuns.

(** ** Runs of the Manhattan composer *)


Lemma sample_lookup_gwas : frames sample_world !!! 1%positive = sample_gwas.
Proof. reflexivity. Qed.

Lemma groupby_has_columns df c cs :
  has_columns cs df -> Forall (fun g => has_columns cs g.2) (groupby df c).
Proof.
  intros H. apply Forall_forall. intros g Hin. apply groupby_columns in Hin.
  unfold has_columns. by rewrite Hin.
Qed.

Module ManhattanClaims.
Import Manhattan ManhattanFacts ManhattanRuns.

(** The rows of the table that is drawn: those of the caller's table,
    reordered. *)
Lemma drawn_rows_length (df : DataFrame) (vals : list cell) (c c' : string) :
  length vals = length (records df) ->
  length (records
    (setitem (sort_values (setitem df c vals) ["CHR"; "bp"]%string) c'
       (map Int (seqZ 0 (Z.of_nat (length (records
          (sort_values (setitem df c vals) ["CHR"; "bp"]%string))))))))
  = length (records df).
Proof.
  intros Hv. rewrite records_setitem_length.
  - by rewrite records_sort_values_length, records_setitem_length.
  - rewrite length_map, length_seqZ. lia.
Qed.

(** The call up to the point where the figure is annotated, for tables
    with the columns the data model gives them: it reaches the call of
    [annotate_plot], which is one argument short. *)
Lemma manhattan_plot_annotate_triple (df_gwas df_annot : positive)
    (plots_dir : option string) (w0 : world) :
  has_columns ["p"; "CHR"; "bp"; "SNP"]%string (frames w0 !!! df_gwas) ->
  has_columns ["SNP"; "GENE"]%string (frames w0 !!! df_annot) ->
  triple (same_store w0) (manhattan_plot df_gwas plots_dir (Some df_annot) true)
    (fun _ _ => False) (fun e w => e = TypeError /\ same_store w0 w).
Proof.
  intros Hg Ha. pose proof (same_store_blind w0) as Hblind.
  unfold manhattan_plot.
  eapply step_load; [by intros w (-> & _)|]. run.
  eapply step_load; [by intros w (-> & _)|]. run.
  eapply step_call.
  { apply draw_chrom_groups_returns; [done|apply groupby_has_columns|simpl];
      unfold has_columns; rewrite !Forall_cons; repeat split; [cols..|done]. }
  run. by apply step_raise.
Qed.



(** The call leaves the caller's tables as they were, however it
    ends. *)
Lemma manhattan_plot_keeps_frames df_gwas plots_dir df_annot annotate w :
  frames (manhattan_plot df_gwas plots_dir df_annot annotate w).1 = frames w.
Proof.
  pose proof (manhattan_plot_tail (frames_kept w) (frames_kept_blind w)
    df_gwas plots_dir df_annot annotate (fun _ => frames_kept w)) as H.
  assert (Ht : forall ax, preserves (frames_kept w)
            match plots_dir with
            | None => mret (RetAxes ax)
            | Some d => draw TightLayout;; savefig d "manhattan_plot.png";; mret (RetBool true)
            end).
  { pose proof (frames_kept_blind w). intros ax. destruct plots_dir; pres.
    apply pres_savefig_frames. }
  specialize (H Ht w eq_refl).
  by destruct (manhattan_plot df_gwas plots_dir df_annot annotate w) as [w' [e|v]].
Qed.

(** C2.  For tables with the columns of the data model (p, CHR, bp and
    SNP in the association table; SNP and GENE in the annotation
    table), [manhattan_plot] with [annotate=True] does not complete: it
    raises [TypeError] at its call of [annotate_plot], whatever
    [plots_dir] is, and writes no file. *)
Theorem manhattan_plot_annotate_raises (df_gwas df_annot : positive)
    (plots_dir : option string) (w : world) :
  has_columns ["p"; "CHR"; "bp"; "SNP"]%string (frames w !!! df_gwas) ->
  has_columns ["SNP"; "GENE"]%string (frames w !!! df_annot) ->
  (manhattan_plot df_gwas plots_dir (Some df_annot) true w).2 = inl TypeError /\
  files (manhattan_plot df_gwas plots_dir (Some df_annot) true w).1 = files w.
Proof.
  intros Hg Ha.
  pose proof (manhattan_plot_annotate_triple df_gwas df_annot plots_dir w Hg Ha w) as H.
  specialize (H (conj eq_refl (conj eq_refl eq_refl))).
  destruct (manhattan_plot df_gwas plots_dir (Some df_annot) true w) as [w' [e|v]];
    simpl; [|done].
  destruct H as (-> & _ & _ & Hf). done.
Qed.

Lemma manhattan_plot_annotate_raises_witness :
  (manhattan_plot 1 (Some "plots"%string) (Some 2%positive) true sample_world).2
    = inl TypeError /\
  files (manhattan_plot 1 (Some "plots"%string) (Some 2%positive) true sample_world).1
    = files sample_world.
Proof.
  apply (manhattan_plot_annotate_raises 1 2 (Some "plots"%string) sample_world);
    unfold has_columns; repeat constructor.
Defined.



End ManhattanClaims.

(** ** The QQ composer *)

Module QQFacts.
Import QQ.



Lemma confidence_band_returns (n conf_points : Z) (conf_alpha : R) :
  1 <= n -> 0 <= conf_points ->
  exists mpts, Band.confidence_band n conf_points conf_alpha = inr mpts.
Proof.
  intros Hn Hc. unfold Band.confidence_band, Band.np_zeros.
  destruct (Z.ltb_spec (Z.min conf_points (n - 1) * 2) 0); [lia|eauto].
Qed.

Lemma thin_nonempty (log_p exp_x : list R) :
  (0 < length log_p)%nat -> (0 < length exp_x)%nat ->
  (0 < length (Thin.thin log_p exp_x))%nat.
Proof.
  destruct log_p as [|a log_p], exp_x as [|b exp_x]; simpl; lia.
Qed.

Lemma rankdata_length (pvalues : list R) : length (rankdata pvalues) = length pvalues.
Proof. unfold rankdata. apply length_imap. Qed.

(** The call leaves the caller's tables as they were, however it
    ends. *)
Lemma qq_plot_keeps_frames df_gwas plots_dir w :
  frames (qq_plot df_gwas plots_dir w).1 = frames w.
Proof.
  assert (H : preserves (frames_kept w) (qq_plot df_gwas plots_dir)).
  { pose proof (frames_kept_blind w). unfold qq_plot, plot_confidence_interval.
    pres. apply pres_savefig_frames. }
  specialize (H w eq_refl).
  by destruct (qq_plot df_gwas plots_dir w) as [w' [e|v]].
Qed.







End QQFacts.

(** ** The Miami composer *)

Module MiamiFacts.
Import Miami.

Lemma columns_setitem_scalar df c v c' :
  c' ∈ columns (setitem_scalar df c v) <-> c' = c \/ c' ∈ columns df.
Proof. apply columns_setitem. Qed.

Lemma split_marked_blind t b : figure_blind (split_marked t b).
Proof. by intros w fig H. Qed.

(** Writing a column into a table keeps the columns every table
    has. *)
Lemma split_marked_update t b l c v w :
  split_marked t b w ->
  split_marked t b (update l (fun df => setitem_scalar df c v) w).1.
Proof.
  intros [Ht Hb]. unfold split_marked, update. simpl.
  split.
  - destruct (decide (l = t)) as [->|Hne].
    + rewrite lookup_total_insert_eq. apply columns_setitem_scalar. by right.
    + by rewrite lookup_total_insert_ne.
  - destruct (decide (l = b)) as [->|Hne].
    + rewrite lookup_total_insert_eq. apply columns_setitem_scalar. by right.
    + by rewrite lookup_total_insert_ne.
Qed.

Lemma pres_update t b l c v :
  preserves (split_marked t b) (update l (fun df => setitem_scalar df c v)).
Proof. intros w Hw. by apply (split_marked_update t b l c v w). Qed.

(** [prepare_data] writes the ['split_by'] column into both of the
    tables it is handed. *)
Lemma prepare_data_marks t b :
  triple (fun _ => True) (prepare_data t b)
    (fun _ => split_marked t b) (fun _ => split_marked t b).
Proof.
  intros w _. unfold prepare_data, mbind, M_bind, update, load, mret, M_ret.
  unfold split_marked. cbn [frames].
  split.
  - destruct (decide (b = t)) as [->|Hne].
    + rewrite lookup_total_insert_eq. apply columns_setitem_scalar. by left.
    + rewrite lookup_total_insert_ne, lookup_total_insert_eq by done.
      apply columns_setitem_scalar. by left.
  - rewrite lookup_total_insert_eq. apply columns_setitem_scalar. by left.
Qed.

Section Invariant.
Variable I : world -> Prop.
Hypothesis I_blind : figure_blind I.

Lemma pres_compute_relative_pos data chr_col pos_col p_col :
  preserves I (compute_relative_pos data chr_col pos_col p_col).
Proof. unfold compute_relative_pos. pres. Qed.

Lemma pres_find_chromosomes_center data :
  preserves I (find_chromosomes_center data).
Proof. unfold find_chromosomes_center. pres. Qed.

Lemma pres_classify_annotations top bottom :
  preserves I (classify_annotations top bottom).
Proof. unfold classify_annotations. pres. Qed.

Lemma pres_annotate_miami axes gwas_data annotations to_annotate :
  preserves I (annotate_miami axes gwas_data annotations to_annotate).
Proof. unfold annotate_miami. pres. Qed.

Lemma pres_finite v : preserves I (finite v).
Proof. unfold finite. pres. Qed.
End Invariant.

(** Whatever [miami_plot] goes on to do, and however it ends, both
    tables keep the column [prepare_data] wrote into them. *)
Lemma miami_plot_marks df_top top_higlights df_bottom bottom_higlights plots_dir :
  triple (fun _ => True)
    (miami_plot df_top top_higlights df_bottom bottom_higlights plots_dir)
    (fun _ => split_marked df_top df_bottom) (fun _ => split_marked df_top df_bottom).
Proof.
  pose proof (split_marked_blind df_top df_bottom) as Hblind.
  unfold miami_plot, process_miami_data. cbv zeta.
  eapply triple_bind with (R := fun _ => split_marked df_top df_bottom).
  - eapply triple_bind with (R := fun _ => split_marked df_top df_bottom);
      [apply prepare_data_marks|].
    intros data.
    change (preserves (split_marked df_top df_bottom)
      (data0 ← compute_relative_pos data "CHR" "POS" "p";
       axis_center ← find_chromosomes_center data0;
       log10p ← floats data0 "log10p";
       _ ← getcol data0 "split_by";
       mret (mkPlotData
          (select (fun r => bool_decide (r !!! "split_by" = Str "top")) data0)
          (select (fun r => bool_decide (r !!! "split_by" = Str "bottom")) data0)
          axis_center ((fun m => IZR (Zceil m)) <$> Miami.series_max log10p)))).
    apply pres_bind; [by apply pres_compute_relative_pos|]. intros data0.
    apply pres_bind; [by apply pres_find_chromosomes_center|]. intros axis_center.
    pres.
  - intros plot_data.
    lazymatch goal with |- triple ?I ?m _ _ => change (preserves I m) end.
    repeat first
      [ progress pres
      | apply pres_finite; assumption
      | apply pres_update
      | apply pres_annotate_miami; assumption
      | apply pres_classify_annotations; assumption
      | apply triple_savefig; intros w Hw; by split ].
Qed.


(** C9.  [manhattan_plot] and [qq_plot] leave every table of the caller
    as it was, however they end.  [miami_plot] does not: however it
    ends, both association tables it was given carry a ['split_by']
    column afterwards, so tables that came without one have been
    changed, as the two one-row tables of the sample world are. *)
Theorem miami_plot_marks_its_inputs :
  (forall (df_gwas : positive) (plots_dir : option string)
          (df_annot : option positive) (annotate : bool) (w : world),
     frames (Manhattan.manhattan_plot df_gwas plots_dir df_annot annotate w).1
       = frames w) /\
  (forall (df_gwas : positive) (plots_dir : string) (w : world),
     frames (QQ.qq_plot df_gwas plots_dir w).1 = frames w) /\
  (forall (df_top : positive) (top_higlights : option positive)
          (df_bottom : positive) (bottom_higlights : option positive)
          (plots_dir : string) (w : world),
     split_marked df_top df_bottom
       (miami_plot df_top top_higlights df_bottom bottom_higlights plots_dir w).1) /\
  frames (miami_plot 1 None 4 None "plots" sample_world).1 <> frames sample_world.
Proof.
  assert (Hm : forall df_top top_higlights df_bottom bottom_higlights plots_dir w,
            split_marked df_top df_bottom
              (miami_plot df_top top_higlights df_bottom bottom_higlights plots_dir w).1).
  { intros df_top top_higlights df_bottom bottom_higlights plots_dir w.
    pose proof (miami_plot_marks df_top top_higlights df_bottom bottom_higlights
                  plots_dir w Logic.I) as H.
    by destruct (miami_plot df_top top_higlights df_bottom bottom_higlights plots_dir w)
      as [w' [e|v]]. }
  split; [exact ManhattanClaims.manhattan_plot_keeps_frames|].
  split; [exact QQFacts.qq_plot_keeps_frames|].
  split; [exact Hm|].
  intros Heq. destruct (Hm 1%positive None 4%positive None "plots"%string sample_world)
    as [H _].
  rewrite Heq, sample_lookup_gwas in H. simpl in H.
  repeat (apply elem_of_cons in H as [H|H]; [discriminate H|]).
  by apply elem_of_nil in H.
Qed.

End MiamiFacts.

(** * Further properties of the module *)

(** ** The stable sort orders its input *)

Section SortOrder.
Context {A : Type}.
Variable le : A -> A -> bool.
Hypothesis le_total : forall a b, le a b = true \/ le b a = true.
Hypothesis le_trans : forall a b c, le a b = true -> le b c = true -> le a c = true.



End SortOrder.


Module CoordOrder.
Import Coord CoordFacts.

Section Order.
Context {row : Type}.
Variable chr_col : row -> Z.
Variable pos_col : row -> Z.
Variable p_col : row -> R.





(** X2.  For p-values in (0, 1] the [log10p] column holds no negative
    number, and it is 0 exactly on the rows whose p-value is 1. *)
Theorem compute_relative_pos_log10p (data : list row) :
  Forall (fun r => (0 < p_col r <= 1)%R) data ->
  Forall (fun d => (0 <= log10p d)%R /\ (log10p d = 0%R <-> p_col (rec d) = 1%R))
         (compute_relative_pos chr_col pos_col p_col data).
Proof.
  intros Hp. apply Forall_forall. intros d Hd.
  apply compute_relative_pos_elem in Hd as (r & Hr & ->). simpl.
  rewrite Forall_forall in Hp. specialize (Hp r Hr).
  pose proof BandFacts.ln_10_pos as H10.
  unfold neg_log10.
  assert (ln (p_col r) <= 0)%R as Hln.
  { destruct (Req_dec (p_col r) 1) as [->|Hne]; [rewrite ln_1; lra|].
    rewrite <- ln_1. left. apply ln_increasing; lra. }
  assert (0 < / ln 10)%R as Hinv by by apply Rinv_0_lt_compat.
  split.
  - unfold Rdiv. nra.
  - split.
    + intros H0. apply ln_inv; [lra..|]. rewrite ln_1.
      unfold Rdiv in H0. nra.
    + intros ->. rewrite ln_1. lra.
Qed.
End Order.


Lemma compute_relative_pos_log10p_witness :
  Forall (fun d => (0 <= log10p d)%R /\ (log10p d = 0%R <-> snd (rec d) = 1%R))
         (compute_relative_pos (fun r => fst (fst r)) (fun r => snd (fst r)) snd
            [(1, 5, 1%R)]).
Proof.
  apply (compute_relative_pos_log10p (fun r => fst (fst r)) (fun r => snd (fst r)) snd
           [(1, 5, 1%R)]).
  repeat constructor; simpl; lra.
Defined.

End CoordOrder.

(** ** More on thinning and on the confidence band *)

Module ThinOrder.
Import Thin ThinFacts.


End ThinOrder.

Module BandShape.
Import Band BandFacts.

Lemma band_fold_length n k a (l : list Z) (mpts : list (R * R)) :
  length (foldl (band_step n k a) mpts l) = length mpts.
Proof.
  revert mpts. induction l as [|i l IH]; intros mpts; simpl; [done|].
  by rewrite IH, band_step_length.
Qed.

(** X4.  The band computation raises [ValueError] exactly when
    min(conf_points, n - 1) is negative; otherwise it returns
    2 * min(conf_points, n - 1) points, none at all for a budget of
    zero or a single p-value. *)
Theorem confidence_band_defined (n conf_points : Z) (conf_alpha : R) :
  (Z.min conf_points (n - 1) < 0 ->
   confidence_band n conf_points conf_alpha = inl ValueError) /\
  (0 <= Z.min conf_points (n - 1) ->
   exists mpts,
     confidence_band n conf_points conf_alpha = inr mpts /\
     Z.of_nat (length mpts) = 2 * Z.min conf_points (n - 1)).
Proof.
  unfold confidence_band, np_zeros. split; intros H.
  - destruct (Z.ltb_spec (Z.min conf_points (n - 1) * 2) 0); [done|lia].
  - destruct (Z.ltb_spec (Z.min conf_points (n - 1) * 2) 0); [lia|].
    eexists. split; [reflexivity|].
    rewrite band_fold_length, length_replicate. lia.
Qed.

Lemma confidence_band_defined_witness :
  confidence_band 0 1500 0.05 = inl ValueError /\
  exists mpts,
    confidence_band 3 1500 0.05 = inr mpts /\
    Z.of_nat (length mpts) = 2 * Z.min 1500 (3 - 1).
Proof.
  split.
  - apply (confidence_band_defined 0 1500 0.05). lia.
  - apply (confidence_band_defined 3 1500 0.05). lia.
Defined.

(** X5.  For [n > 1] and a positive budget the polygon goes out along
    the upper bounds and comes back along the lower ones: its column of
    x-coordinates reads the same in both directions. *)
Theorem confidence_band_x_mirrored (n conf_points : Z) (conf_alpha : R) :
  1 < n -> 0 < conf_points ->
  exists mpts,
    confidence_band n conf_points conf_alpha = inr mpts /\
    reverse (mpts.*1) = mpts.*1.
Proof.
  intros Hn Hb.
  destruct (confidence_band_spec n conf_points conf_alpha Hn Hb) as (mpts & E & Hlen & H).
  exists mpts. split; [done|].
  set (k := Z.min conf_points (n - 1)) in *.
  assert (1 <= k) as Hk by (unfold k; lia).
  assert (forall p : nat, (p < length mpts)%nat ->
            exists i, 1 <= i <= k /\
              (mpts.*1) !! p = Some (x_at n i) /\
              (mpts.*1) !! (length mpts - S p)%nat = Some (x_at n i)) as Hx.
  { intros p Hp.
    destruct (decide (Z.of_nat p < k)) as [Hlow|Hhigh].
    - exists (Z.of_nat p + 1). split; [lia|].
      destruct (H (Z.of_nat p + 1) ltac:(lia)) as [Hu Hl].
      rewrite !list_lookup_fmap. split.
      + replace (Z.to_nat (Z.of_nat p + 1 - 1)) with p in Hu by lia. by rewrite Hu.
      + replace (Z.to_nat (k * 2 - (Z.of_nat p + 1))) with (length mpts - S p)%nat in Hl
          by lia. by rewrite Hl.
    - exists (k * 2 - Z.of_nat p). split; [lia|].
      destruct (H (k * 2 - Z.of_nat p) ltac:(lia)) as [Hu Hl].
      rewrite !list_lookup_fmap. split.
      + replace (Z.to_nat (k * 2 - (k * 2 - Z.of_nat p))) with p in Hl by lia.
        by rewrite Hl.
      + replace (Z.to_nat (k * 2 - Z.of_nat p - 1)) with (length mpts - S p)%nat in Hu
          by lia. by rewrite Hu. }
  apply list_eq. intros p.
  destruct (decide (p < length mpts)%nat) as [Hp|Hp].
  - rewrite reverse_lookup by (by rewrite length_fmap).
    rewrite length_fmap. destruct (Hx p Hp) as (i & _ & H1 & H2).
    by rewrite H1, H2.
  - rewrite !lookup_ge_None_2; [done|rewrite ?length_reverse, length_fmap; lia..].
Qed.

Lemma confidence_band_x_mirrored_witness :
  exists mpts,
    confidence_band 3 1500 0.05 = inr mpts /\ reverse (mpts.*1) = mpts.*1.
Proof. apply (confidence_band_x_mirrored 3 1500 0.05); lia. Defined.

End BandShape.

(** ** Error and edge behaviour of the Manhattan and QQ composers *)

Section RaisingSteps.
Context {B : Type}.
Variable I : world -> Prop.
Variable Q : B -> world -> Prop.
Variable E : exn -> world -> Prop.

Lemma step_lift_raise {A} (r : exn + A) (e : exn) (k : A -> M B) :
  r = inl e -> (forall w, I w -> E e w) -> triple I (lift r ≫= k) Q E.
Proof. intros -> H w Hw. by apply H. Qed.

Lemma step_getcol_missing df c (k : list cell -> M B) :
  c ∉ columns df -> (forall w, I w -> E (KeyError c) w) ->
  triple I (getcol df c ≫= k) Q E.
Proof.
  intros Hc. apply step_lift_raise. unfold getitem. by rewrite decide_False.
Qed.

Lemma step_floats_missing df c (k : list R -> M B) :
  c ∉ columns df -> (forall w, I w -> E (KeyError c) w) ->
  triple I (floats df c ≫= k) Q E.
Proof.
  intros Hc H. unfold floats. apply step_assoc. by apply step_getcol_missing.
Qed.
End RaisingSteps.

Lemma py_max_empty (l : list R) : length l = 0%nat -> py_max l = inl ValueError.
Proof. by destruct l. Qed.

(** Reading the outcome of a call off its specification. *)
Lemma triple_run {A} (P : world -> Prop) (m : M A) (Q : A -> world -> Prop)
    (E : exn -> world -> Prop) (w : world) :
  triple P m Q E -> P w ->
  match (m w).2 with inr a => Q a (m w).1 | inl e => E e (m w).1 end.
Proof. intros H Hw. specialize (H w Hw). by destruct (m w) as [w' [e|a]]. Qed.

Lemma triple_raises_exactly {A} (m : M A) (e : exn) (w : world) :
  triple (fun w' => w' = w) m (fun _ _ => False) (fun e' w' => e' = e /\ w' = w) ->
  m w = (w, inl e).
Proof.
  intros H. specialize (H w eq_refl). destruct (m w) as [w' [e'|a]]; [|done].
  by destruct H as [-> ->].
Qed.

Module ManhattanEdges.
Import Manhattan ManhattanFacts ManhattanRuns.

(** The two arguments of the annotating call are locals; whether or not
    they are bound, the call does not return. *)
Lemma annotate_call_raises (I : world -> Prop) (highlighted_snps : option DataFrame)
    (genes : option (list cell)) (ax : positive) :
  triple I
    (h ← local highlighted_snps; g ← local genes;
     annotate_plot [VAxes ax; VFrame h; VList g])
    (fun _ _ => False) (fun _ => I).
Proof. intros w Hw. by destruct highlighted_snps, genes. Qed.

Lemma manhattan_plot_annotate_triple_any (I : world -> Prop) df_gwas plots_dir df_annot :
  figure_blind I ->
  triple I (manhattan_plot df_gwas plots_dir df_annot true)
    (fun _ _ => False) (fun _ => I).
Proof.
  intros Hblind. unfold manhattan_plot. cbv iota.
  repeat lazymatch goal with
  | |- triple _ (let _ := _ in _) _ _ => cbv zeta
  | |- triple _ (match ?x with _ => _ end) _ _ => destruct x
  | |- triple _ (_ ≫= _) _ _ =>
      first
        [ eapply triple_bind with (R := fun _ _ => False);
          [apply annotate_call_raises|by intros ? ? []]
        | apply (triple_bind_pres I);
          [pres; apply pres_draw_chrom_groups; assumption|intros] ]
  end.
Qed.

(** X6.  With [annotate=True] [manhattan_plot] never returns, whatever
    it is given, and it writes no file; for a table with the columns
    read and no annotation table the exception is [UnboundLocalError]:
    [highlighted_snps] is assigned only when [df_annot] is given. *)
Theorem manhattan_plot_annotate_never_returns (df_gwas : positive)
    (plots_dir : option string) (w : world) :
  (forall df_annot,
     (exists e, (manhattan_plot df_gwas plots_dir df_annot true w).2 = inl e) /\
     files (manhattan_plot df_gwas plots_dir df_annot true w).1 = files w) /\
  (has_columns ["p"; "CHR"; "bp"]%string (frames w !!! df_gwas) ->
   (manhattan_plot df_gwas plots_dir None true w).2 = inl UnboundLocalError).
Proof.
  split.
  - intros df_annot.
    pose proof (triple_run _ _ _ _ w
      (manhattan_plot_annotate_triple_any (files_kept w) df_gwas plots_dir df_annot
         (files_kept_blind w)) eq_refl) as H.
    destruct ((manhattan_plot df_gwas plots_dir df_annot true w).2) as [e|v]; [|done].
    split; [by exists e|exact H].
  - intros Hg.
    assert (triple (same_store w) (manhattan_plot df_gwas plots_dir None true)
              (fun _ _ => False) (fun e _ => e = UnboundLocalError)) as Ht.
    { pose proof (same_store_blind w) as Hblind. unfold manhattan_plot.
      eapply step_load; [by intros w' (-> & _)|]. run.
      eapply step_call.
      { apply draw_chrom_groups_returns; [done|apply groupby_has_columns|done].
        unfold has_columns. rewrite !Forall_cons. repeat split; [cols..|done]. }
      run. by apply step_raise. }
    pose proof (triple_run _ _ _ _ w Ht (conj eq_refl (conj eq_refl eq_refl))) as H.
    destruct ((manhattan_plot df_gwas plots_dir None true w).2) as [e|v]; [|done].
    by rewrite H.
Qed.

Lemma manhattan_plot_annotate_never_returns_witness :
  (manhattan_plot 1 (Some "plots"%string) None true sample_world).2 = inl UnboundLocalError.
Proof.
  apply (manhattan_plot_annotate_never_returns 1 (Some "plots"%string) sample_world).
  unfold has_columns. repeat constructor.
Defined.

(** X7.  On a table without rows [manhattan_plot] raises [ValueError]
    at [max(df['log10P'])], after the figure has been set up, and
    writes no file. *)
Theorem manhattan_plot_empty_table (df_gwas : positive) (plots_dir : option string)
    (w : world) :
  has_columns ["p"; "CHR"; "bp"]%string (frames w !!! df_gwas) ->
  records (frames w !!! df_gwas) = [] ->
  (manhattan_plot df_gwas plots_dir None false w).2 = inl ValueError /\
  files (manhattan_plot df_gwas plots_dir None false w).1 = files w.
Proof.
  intros Hg Hrows.
  assert (triple (same_store w) (manhattan_plot df_gwas plots_dir None false)
            (fun _ _ => False) (fun e w' => e = ValueError /\ same_store w w')) as Ht.
  { pose proof (same_store_blind w) as Hblind. unfold manhattan_plot.
    eapply step_load; [by intros w' (-> & _)|]. run.
    eapply step_call.
    { apply draw_chrom_groups_returns; [done|apply groupby_has_columns|done].
      unfold has_columns. rewrite !Forall_cons. repeat split; [cols..|done]. }
    run. eapply step_lift_raise; [|done].
    apply py_max_empty.
    rewrite !length_map, ManhattanClaims.drawn_rows_length.
    - by rewrite Hrows.
    - by rewrite !length_map. }
  pose proof (triple_run _ _ _ _ w Ht (conj eq_refl (conj eq_refl eq_refl))) as H.
  destruct ((manhattan_plot df_gwas plots_dir None false w).2) as [e|v]; [|done].
  destruct H as (-> & _ & _ & Hf). done.
Qed.

Lemma manhattan_plot_empty_table_witness :
  (manhattan_plot 3 (Some "plots"%string) None false sample_world).2 = inl ValueError /\
  files (manhattan_plot 3 (Some "plots"%string) None false sample_world).1
    = files sample_world.
Proof.
  apply (manhattan_plot_empty_table 3 (Some "plots"%string) sample_world).
  - unfold has_columns. repeat constructor.
  - reflexivity.
Defined.

(** A table with 'p' and 'CHR' and without 'bp' stops the call at the
    sort. *)
Lemma manhattan_plot_without_bp df_gwas plots_dir df_annot annotate w :
  "p" ∈ columns (frames w !!! df_gwas) -> "CHR" ∈ columns (frames w !!! df_gwas) ->
  "bp" ∉ columns (frames w !!! df_gwas) ->
  manhattan_plot df_gwas plots_dir df_annot annotate w = (w, inl (KeyError "bp")).
Proof.
  intros Hp Hc Hb. apply triple_raises_exactly. unfold manhattan_plot.
  eapply step_load; [by intros w' ->|]. run.
  apply step_getcol_missing; [|done].
  rewrite columns_setitem. intros [?|?]; done.
Qed.

(** X8.  A missing column stops [manhattan_plot] with a [KeyError]
    naming it, before anything is drawn or written: 'p' first, then
    'CHR', then 'bp'. *)
Theorem manhattan_plot_missing_column (df_gwas : positive) (plots_dir : option string)
    (df_annot : option positive) (annotate : bool) (w : world) :
  ("p" ∉ columns (frames w !!! df_gwas) ->
   manhattan_plot df_gwas plots_dir df_annot annotate w = (w, inl (KeyError "p"))) /\
  ("p" ∈ columns (frames w !!! df_gwas) -> "CHR" ∉ columns (frames w !!! df_gwas) ->
   manhattan_plot df_gwas plots_dir df_annot annotate w = (w, inl (KeyError "CHR"))) /\
  ("p" ∈ columns (frames w !!! df_gwas) -> "CHR" ∈ columns (frames w !!! df_gwas) ->
   "bp" ∉ columns (frames w !!! df_gwas) ->
   manhattan_plot df_gwas plots_dir df_annot annotate w = (w, inl (KeyError "bp"))).
Proof.
  split; [|split].
  - intros Hp. apply triple_raises_exactly. unfold manhattan_plot.
    eapply step_load; [by intros w' ->|].
    by apply step_floats_missing.
  - intros Hp Hc. apply triple_raises_exactly. unfold manhattan_plot.
    eapply step_load; [by intros w' ->|]. run.
    apply step_getcol_missing; [|done].
    rewrite columns_setitem. intros [?|?]; done.
  - apply manhattan_plot_without_bp.
Qed.

Lemma manhattan_plot_missing_column_witness :
  manhattan_plot 2 None None false sample_world = (sample_world, inl (KeyError "p")) /\
  manhattan_plot 1 None None false edge_world = (edge_world, inl (KeyError "CHR")) /\
  manhattan_plot 2 None None false edge_world = (edge_world, inl (KeyError "bp")).
Proof.
  split; [|split].
  - apply (manhattan_plot_missing_column 2 None None false sample_world).
    apply (bool_decide_unpack _). vm_compute. exact Logic.I.
  - apply (manhattan_plot_missing_column 1 None None false edge_world).
    + apply (bool_decide_unpack _). vm_compute. exact Logic.I.
    + apply (bool_decide_unpack _). vm_compute. exact Logic.I.
  - apply (manhattan_plot_missing_column 2 None None false edge_world).
    + apply (bool_decide_unpack _). vm_compute. exact Logic.I.
    + apply (bool_decide_unpack _). vm_compute. exact Logic.I.
    + apply (bool_decide_unpack _). vm_compute. exact Logic.I.
Defined.

End ManhattanEdges.

Module QQEdges.
Import QQ QQFacts.

(** With at least one p-value the call reaches [savefig]; what happens
    there decides how it ends. *)
Lemma qq_plot_reaches_savefig df_gwas plots_dir w
    (Q : bool -> world -> Prop) (E : exn -> world -> Prop) :
  "p" ∈ columns (frames w !!! df_gwas) ->
  records (frames w !!! df_gwas) <> [] ->
  triple (same_store w) (savefig plots_dir "qq_plot.png";; mret true) Q E ->
  triple (same_store w) (qq_plot df_gwas plots_dir) Q E.
Proof.
  intros Hc Hr Htail. pose proof (same_store_blind w) as Hblind.
  assert (Hn : (0 < length (records (frames w !!! df_gwas)))%nat).
  { destruct (records (frames w !!! df_gwas)); simpl; [done|lia]. }
  unfold qq_plot, plot_confidence_interval.
  eapply step_load; [by intros w' (-> & _)|]. run.
  assert (Hthin : forall log_p exp_x : list R,
            length log_p = length (records (frames w !!! df_gwas)) ->
            length exp_x = length (records (frames w !!! df_gwas)) ->
            (0 < length ((Thin.thin log_p exp_x).*1))%nat /\
            (0 < length ((Thin.thin log_p exp_x).*2))%nat).
  { intros log_p exp_x H1 H2. rewrite !length_fmap.
    split; apply thin_nonempty; lia. }
  apply step_lift_ex.
  { apply py_min_ok, Hthin; by rewrite ?length_map, ?rankdata_length, ?length_map. }
  intros lo_p. apply step_lift_ex.
  { apply py_min_ok, Hthin; by rewrite ?length_map, ?rankdata_length, ?length_map. }
  intros lo_x. apply step_lift_ex.
  { apply py_max_ok, Hthin; by rewrite ?length_map, ?rankdata_length, ?length_map. }
  intros hi_p. apply step_lift_ex.
  { apply py_max_ok, Hthin; by rewrite ?length_map, ?rankdata_length, ?length_map. }
  intros hi_x.
  run. apply step_lift_ex.
  { apply confidence_band_returns; rewrite ?length_map; lia. }
  intros mpts. run. exact Htail.
Qed.

Lemma sample_gwas_positive :
  Forall (fun r => (0 < as_float (r !!! "p"))%R) (records sample_gwas).
Proof.
  repeat constructor.
  rewrite !lookup_total_insert_ne, lookup_total_insert_eq by done. simpl. lra.
Defined.

(** X9.  How [qq_plot] ends on a table that is not empty: without a
    'p' column it raises [KeyError] and touches nothing; with one, and
    positive p-values in it, it returns [True] after adding
    [qq_plot.png] to an existing directory, and raises
    [FileNotFoundError], writing nothing, when the directory does not
    exist. *)
Theorem qq_plot_outcomes (df_gwas : positive) (plots_dir : string) (w : world) :
  ("p" ∉ columns (frames w !!! df_gwas) ->
   qq_plot df_gwas plots_dir w = (w, inl (KeyError "p"))) /\
  ("p" ∈ columns (frames w !!! df_gwas) -> records (frames w !!! df_gwas) <> [] ->
   Forall (fun r => (0 < as_float (r !!! "p"))%R) (records (frames w !!! df_gwas)) ->
   plots_dir ∈ dirs w ->
   (qq_plot df_gwas plots_dir w).2 = inr true /\
   files (qq_plot df_gwas plots_dir w).1 = files w ++ [path_join plots_dir "qq_plot.png"]) /\
  ("p" ∈ columns (frames w !!! df_gwas) -> records (frames w !!! df_gwas) <> [] ->
   Forall (fun r => (0 < as_float (r !!! "p"))%R) (records (frames w !!! df_gwas)) ->
   plots_dir ∉ dirs w ->
   (qq_plot df_gwas plots_dir w).2 = inl FileNotFoundError /\
   files (qq_plot df_gwas plots_dir w).1 = files w).
Proof.
  split; [|split].
  - intros Hp. apply triple_raises_exactly. unfold qq_plot.
    eapply step_load; [by intros w' ->|].
    by apply step_floats_missing.
  - intros Hp Hr _ Hd.
    pose proof (triple_run _ _ _ _ w
      (qq_plot_reaches_savefig df_gwas plots_dir w
         (fun v w' => v = true /\
                      files w' = files w ++ [path_join plots_dir "qq_plot.png"])
         (fun _ _ => False) Hp Hr
         ltac:(eapply triple_bind with
                 (R := fun _ w' =>
                         files w' = files w ++ [path_join plots_dir "qq_plot.png"]);
               [apply triple_savefig; intros w' (_ & Hd' & Hf'); split;
                  [intros _; simpl; by rewrite Hf'
                  |intros Hnd; apply Hnd; by rewrite Hd']
               |intros _; by apply triple_ret]))
      (conj eq_refl (conj eq_refl eq_refl))) as H.
    destruct ((qq_plot df_gwas plots_dir w).2) as [e|v]; [done|].
    by destruct H as [-> H].
  - intros Hp Hr _ Hd.
    pose proof (triple_run _ _ _ _ w
      (qq_plot_reaches_savefig df_gwas plots_dir w
         (fun _ _ => False)
         (fun e w' => e = FileNotFoundError /\ files w' = files w) Hp Hr
         ltac:(eapply triple_bind with (R := fun _ _ => False);
               [apply triple_savefig; intros w' (_ & Hd' & Hf'); split;
                  [intros Hin; apply Hd; by rewrite <- Hd'|done]
               |by intros ? ? []]))
      (conj eq_refl (conj eq_refl eq_refl))) as H.
    destruct ((qq_plot df_gwas plots_dir w).2) as [e|v]; [|done].
    by destruct H as [-> H].
Qed.

Lemma qq_plot_outcomes_witness :
  qq_plot 2 "plots" sample_world = (sample_world, inl (KeyError "p")) /\
  (qq_plot 1 "plots" sample_world).2 = inr true /\
  (qq_plot 1 "figures" sample_world).2 = inl FileNotFoundError.
Proof.
  split; [|split].
  - apply (qq_plot_outcomes 2 "plots" sample_world).
    apply (bool_decide_unpack _). vm_compute. exact Logic.I.
  - apply (qq_plot_outcomes 1 "plots" sample_world).
    + repeat constructor.
    + discriminate.
    + apply sample_gwas_positive.
    + repeat constructor.
  - apply (qq_plot_outcomes 1 "figures" sample_world).
    + repeat constructor.
    + discriminate.
    + apply sample_gwas_positive.
    + apply (bool_decide_unpack _). vm_compute. exact Logic.I.
Defined.

End QQEdges.

(** ** The data preparation of the Miami composer *)

Lemma zip_with_insert_map {A} (c : string) (f : A -> gmap string cell) (g : A -> cell)
    (l : list A) :
  zip_with (fun r v => <[c := v]> r) (map f l) (map g l) =
    map (fun x => <[c := g x]> (f x)) l.
Proof. induction l as [|x l IH]; simpl; [done|]. by rewrite IH. Qed.

Lemma records_setitem_scalar df c v :
  records (setitem_scalar df c v) = map (fun r => <[c := v]> r) (records df).
Proof.
  unfold setitem_scalar, setitem. simpl.
  induction (records df) as [|r l IH]; simpl; [done|]. by rewrite IH.
Qed.

Lemma filter_length_perm {A} (f : A -> bool) (l l' : list A) :
  l ≡ₚ l' -> length (List.filter f l) = length (List.filter f l').
Proof.
  induction 1 as [|x l l' _ IH|x y l|l l' l'' _ IH1 _ IH2]; simpl.
  - done.
  - destruct (f x); simpl; by rewrite IH.
  - by destruct (f x), (f y).
  - by rewrite IH1.
Qed.

Lemma filter_length_Forall2 {A B} (R : A -> B -> Prop) (f : A -> bool) (g : B -> bool)
    (l : list A) (k : list B) :
  (forall a b, R a b -> f a = g b) -> Forall2 R l k ->
  length (List.filter f l) = length (List.filter g k).
Proof.
  intros Hfg. induction 1 as [|a b l k Hab _ IH]; simpl; [done|].
  rewrite (Hfg a b Hab). destruct (g b); simpl; by rewrite IH.
Qed.

Lemma filter_all_true {A} (f : A -> bool) (l : list A) :
  Forall (fun x => f x = true) l -> List.filter f l = l.
Proof. induction 1 as [|x l Hx _ IH]; simpl; [done|]. by rewrite Hx, IH. Qed.

Lemma filter_all_false {A} (f : A -> bool) (l : list A) :
  Forall (fun x => f x = false) l -> List.filter f l = [].
Proof. induction 1 as [|x l Hx _ IH]; simpl; [done|]. by rewrite Hx, IH. Qed.

Lemma columns_concat_l a b c : c ∈ columns a -> c ∈ columns (concat a b).
Proof. intros H. unfold concat. simpl. apply elem_of_app. by left. Qed.

(** A call that only computes: it returns in the world it started in. *)
Lemma triple_of_run {A} (I : world -> Prop) (m : M A) (P : A -> Prop)
    (E : exn -> world -> Prop) :
  (forall w, exists a, m w = (w, inr a) /\ P a) ->
  triple I m (fun a w => P a /\ I w) E.
Proof. intros H w Hw. destruct (H w) as (a & -> & Ha). done. Qed.

Lemma triple_pure {A} (phi : Prop) (I : world -> Prop) (m : M A)
    (Q : A -> world -> Prop) (E : exn -> world -> Prop) :
  (phi -> triple I m Q E) -> triple (fun w => phi /\ I w) m Q E.
Proof. intros H w [Hphi Hw]. by apply H. Qed.

Lemma foldM_pure {A S} (f : S -> A -> M S) (g : S -> A -> S) (s : S) (l : list A)
    (w : world) :
  (forall s a, f s a w = (w, inr (g s a))) ->
  foldM f s l w = (w, inr (foldl g s l)).
Proof.
  intros Hf. revert s. induction l as [|a l IH]; intros s; simpl; [done|].
  unfold mbind, M_bind. by rewrite Hf, IH.
Qed.

Lemma foldl_snoc_map {A B} (f : A -> B) (acc : list B) (l : list A) :
  foldl (fun s a => s ++ [f a]) acc l = acc ++ map f l.
Proof.
  revert acc. induction l as [|a l IH]; intros acc; simpl; [by rewrite app_nil_r|].
  by rewrite IH, <- app_assoc.
Qed.

Module MiamiData.
Import Miami.

(** The rows of the table [compute_relative_pos] returns. *)
Lemma compute_relative_pos_rows (data : DataFrame) (chr_col pos_col p_col : string)
    (w : world) :
  chr_col ∈ columns data -> pos_col ∈ columns data -> p_col ∈ columns data ->
  exists d,
    compute_relative_pos data chr_col pos_col p_col w = (w, inr d) /\
    (forall c, c ∈ columns d <->
               c ∈ columns data \/ c = "rel_pos"%string \/ c = "log10p"%string) /\
    exists rows,
      rows ≡ₚ records data /\
      Forall2 (fun r d' =>
                 extends r d' /\
                 d' !!! "rel_pos" =
                   Int (as_int (r !!! pos_col) +
                        Coord.cumulative_offset
                          (fun r => as_int (r !!! chr_col))
                          (fun r => as_int (r !!! pos_col))
                          (records data) (as_int (r !!! chr_col))) /\
                 d' !!! "log10p" = Float (neg_log10 (as_float (r !!! p_col))))
              rows (records d).
Proof.
  intros Hc Hp Hv. eexists. split.
  { unfold compute_relative_pos, getcol, mbind, M_bind, lift.
    rewrite !getitem_ok by done. reflexivity. }
  split.
  { intros c. rewrite !columns_setitem. simpl. tauto. }
  set (out := Coord.compute_relative_pos _ _ _ (records data)).
  exists (map Coord.rec out). split.
  { unfold out. rewrite CoordFacts.compute_relative_pos_perm, map_map. simpl.
    by rewrite map_id. }
  unfold setitem. cbn [records].
  rewrite (zip_with_insert_map "rel_pos" Coord.rec (fun d => Int (Coord.rel_pos d))).
  rewrite (zip_with_insert_map "log10p"
             (fun d => <["rel_pos" := Int (Coord.rel_pos d)]> (Coord.rec d))
             (fun d => Float (Coord.log10p d))).
  assert (Forall (fun d => exists r, d = Coord.place
                     (fun r => as_int (r !!! chr_col)) (fun r => as_int (r !!! pos_col))
                     (fun r => as_float (r !!! p_col)) (records data) r) out) as Hout.
  { apply Forall_forall. intros d Hd.
    apply CoordFacts.compute_relative_pos_elem in Hd as (r & _ & ->). by exists r. }
  induction Hout as [|d out' (r & ->) _ IH]; simpl; constructor; [|exact IH].
  split; [|split].
  + intros c H1 H2. by rewrite !lookup_total_insert_ne.
  + by rewrite lookup_total_insert_ne, lookup_total_insert_eq.
  + by rewrite lookup_total_insert_eq.
Qed.



End MiamiData.

(** ** Axis ticks and the split of the Miami data *)

Lemma bind_run {A B} (m : M A) (k : A -> M B) (w w' : world) (a : A) :
  m w = (w', inr a) -> (m ≫= k) w = k a w'.
Proof. intros H. unfold mbind, M_bind. by rewrite H. Qed.

Lemma getcol_run df c w :
  c ∈ columns df -> getcol df c w = (w, inr (map (fun r => r !!! c) (records df))).
Proof. intros H. unfold getcol, lift. by rewrite getitem_ok. Qed.

Lemma floats_run df c w :
  c ∈ columns df ->
  floats df c w = (w, inr (map as_float (map (fun r => r !!! c) (records df)))).
Proof.
  intros H. unfold floats. by rewrite (bind_run _ _ _ _ _ (getcol_run df c w H)).
Qed.

Lemma series_all_equal (v : R) (l : list R) :
  l <> [] -> Forall (fun x => x = v) l ->
  Miami.series_max l = Some v /\ Miami.series_min l = Some v.
Proof.
  destruct l as [|x l]; [done|]. intros _ H.
  apply Forall_cons in H as [-> H]. simpl.
  induction H as [|y l -> _ IH]; simpl; [done|].
  rewrite Rmax_left, Rmin_left by lra. exact IH.
Qed.

Lemma series_max_ok (l : list R) :
  (0 < length l)%nat -> exists x, Miami.series_max l = Some x.
Proof. destruct l; simpl; [lia|eauto]. Qed.

Lemma np_round_0_IZR (x : Z) : np_round (IZR x) 0 = IZR x.
Proof.
  unfold np_round. simpl. rewrite Rmult_1_r, ThinFacts.rint_IZR. lra.
Qed.

Module MiamiAxis.
Import Miami.

Lemma find_chromosomes_center_run data w :
  "CHR" ∈ columns data -> "rel_pos" ∈ columns data ->
  find_chromosomes_center data w =
    (w, inr (mkDF ["CHR"; "center"]%string
               (map (fun chrom => <["center" := Float (center_of data chrom)]>
                                    (<["CHR" := chrom]> ∅))
                    (Thin.drop_duplicates (map (fun r => r !!! "CHR") (records data)))))).
Proof.
  intros Hc Hp. unfold find_chromosomes_center.
  rewrite (bind_run _ _ _ _ _ (getcol_run data "CHR" w Hc)).
  erewrite bind_run; [reflexivity|].
  erewrite foldM_pure.
  - by rewrite foldl_snoc_map.
  - intros s chrom. cbv zeta.
    erewrite bind_run; [reflexivity|]. by apply floats_run.
Qed.

(** X11.  [find_chromosomes_center] gives one tick per chromosome, in
    the order in which the chromosomes first occur in the table, and
    never raises once 'CHR' and 'rel_pos' are there; a chromosome whose
    records all sit at one whole relative position - a single record in
    particular - gets that position as its centre. *)
Theorem find_chromosomes_center_ticks (data : DataFrame) (w : world) :
  has_columns ["CHR"; "rel_pos"]%string data ->
  exists axis,
    find_chromosomes_center data w = (w, inr axis) /\
    columns axis = ["CHR"; "center"]%string /\
    map (fun a => a !!! "CHR") (records axis) =
      Thin.drop_duplicates (map (fun r => r !!! "CHR") (records data)) /\
    Forall (fun a => forall x : Z,
              Forall (fun r => r !!! "CHR" = a !!! "CHR" -> r !!! "rel_pos" = Int x)
                     (records data) ->
              a !!! "center" = Float (IZR x))
           (records axis).
Proof.
  intros Hcols.
  assert ("CHR" ∈ columns data) as Hc by cols.
  assert ("rel_pos" ∈ columns data) as Hp by cols.
  eexists. split; [by apply find_chromosomes_center_run|].
  split; [done|]. cbn [records]. split.
  - rewrite map_map. simpl. apply map_id.
  - apply Forall_forall. intros a Ha.
    apply elem_of_map in Ha as (chrom & -> & Hchrom).
    intros x Hx.
    rewrite lookup_total_insert_eq. f_equal.
    rewrite lookup_total_insert_ne, lookup_total_insert_eq in Hx by done.
    apply ThinFacts.drop_duplicates_from_elem in Hchrom as [Hchrom _].
    apply elem_of_map in Hchrom as (r0 & Hr0 & Hin).
    unfold center_of. cbv zeta.
    destruct (series_all_equal (IZR x)
      (map as_float (map (fun r => r !!! "rel_pos")
         (records (select (fun r => bool_decide (r !!! "CHR" = chrom)) data)))))
      as [Hmax Hmin].
    + simpl. intros Hnil.
      apply (f_equal (@length R)) in Hnil. rewrite !length_map in Hnil.
      assert (r0 ∈ List.filter (fun r => bool_decide (r !!! "CHR" = chrom)) (records data))
        as Hf.
      { apply list_elem_of_In, filter_In. split; [by apply list_elem_of_In|].
        by apply bool_decide_eq_true_2. }
      destruct (List.filter _ (records data)); [by apply elem_of_nil in Hf|done].
    + apply Forall_forall. intros y Hy.
      apply elem_of_map in Hy as (c & -> & Hc').
      apply elem_of_map in Hc' as (r & -> & Hr).
      simpl in Hr. apply list_elem_of_In, filter_In in Hr as [Hr Hb].
      apply bool_decide_eq_true_1 in Hb.
      rewrite Forall_forall in Hx.
      rewrite (Hx r); [done|by apply list_elem_of_In|done].
    + rewrite Hmax, Hmin. simpl.
      replace ((IZR x + IZR x) / 2)%R with (IZR x) by lra.
      apply np_round_0_IZR.
Qed.

Lemma find_chromosomes_center_ticks_witness :
  exists axis,
    find_chromosomes_center placed_sample sample_world = (sample_world, inr axis) /\
    columns axis = ["CHR"; "center"]%string /\
    map (fun a => a !!! "CHR") (records axis) =
      Thin.drop_duplicates (map (fun r => r !!! "CHR") (records placed_sample)) /\
    Forall (fun a => forall x : Z,
              Forall (fun r => r !!! "CHR" = a !!! "CHR" -> r !!! "rel_pos" = Int x)
                     (records placed_sample) ->
              a !!! "center" = Float (IZR x))
           (records axis).
Proof.
  apply (find_chromosomes_center_ticks placed_sample sample_world).
  unfold has_columns. repeat constructor.
Defined.

End MiamiAxis.

(** ** The Miami composer from its tables to the file *)

Lemma out_kept_blind w0 : figure_blind (out_kept w0).
Proof. by intros w fig [? ?]. Qed.

Lemma filter_marked (c : string) (v v' : cell) (l : list (gmap string cell)) :
  List.filter (fun r => bool_decide (r !!! c = v')) (map (fun r => <[c := v]> r) l) =
    if decide (v = v') then map (fun r => <[c := v]> r) l else [].
Proof.
  destruct (decide (v = v')) as [->|Hne].
  - apply filter_all_true, Forall_forall. intros r Hr.
    apply elem_of_map in Hr as (r' & -> & _).
    apply bool_decide_eq_true_2. by rewrite lookup_total_insert_eq.
  - apply filter_all_false, Forall_forall. intros r Hr.
    apply elem_of_map in Hr as (r' & -> & _).
    apply bool_decide_eq_false_2. by rewrite lookup_total_insert_eq.
Qed.

Section FiniteStep.
Context {B : Type}.
Variable I : world -> Prop.
Variable Q : B -> world -> Prop.
Variable E : exn -> world -> Prop.

Lemma step_finite (v : option R) (k : R -> M B) :
  (exists x, v = Some x) -> (forall x, triple I (k x) Q E) ->
  triple I (Miami.finite v ≫= k) Q E.
Proof. intros [x ->] H w Hw. by apply H. Qed.
End FiniteStep.

Module MiamiSplit.
Import Miami.

(** What [prepare_data] leaves in the two tables and returns. *)
Lemma prepare_data_run (t b : positive) (w : world) :
  exists w2,
    prepare_data t b w = (w2, inr (concat (frames w2 !!! t) (frames w2 !!! b))) /\
    out_kept w w2 /\
    (forall c, c ∈ columns (frames w !!! t) -> c ∈ columns (frames w2 !!! t)) /\
    "split_by" ∈ columns (frames w2 !!! t) /\
    (if decide (t = b)
     then records (frames w2 !!! t) =
            map (fun r => <["split_by" := Str "bottom"]> r)
                (map (fun r => <["split_by" := Str "top"]> r) (records (frames w !!! t))) /\
          records (frames w2 !!! b) = records (frames w2 !!! t)
     else records (frames w2 !!! t) =
            map (fun r => <["split_by" := Str "top"]> r) (records (frames w !!! t)) /\
          records (frames w2 !!! b) =
            map (fun r => <["split_by" := Str "bottom"]> r) (records (frames w !!! b))).
Proof.
  eexists. split; [reflexivity|]. cbn [frames dirs files fst].
  split; [done|]. destruct (decide (t = b)) as [->|Hne].
  - rewrite !lookup_total_insert_eq. split; [|split].
    + intros c Hc. rewrite !MiamiFacts.columns_setitem_scalar. auto.
    + rewrite !MiamiFacts.columns_setitem_scalar. auto.
    + by rewrite !records_setitem_scalar.
  - rewrite lookup_total_insert_eq.
    rewrite !(lookup_total_insert_ne _ t b) by done.
    rewrite lookup_total_insert_ne, lookup_total_insert_eq by done. split; [|split].
    + intros c Hc. rewrite MiamiFacts.columns_setitem_scalar. auto.
    + rewrite MiamiFacts.columns_setitem_scalar. auto.
    + by rewrite !records_setitem_scalar.
Qed.

(** The whole of [process_miami_data] on two tables with the columns it
    reads. *)
Lemma process_miami_data_run (t b : positive) (w : world) :
  has_columns ["CHR"; "POS"; "p"]%string (frames w !!! t) ->
  exists pd w2,
    process_miami_data t b w = (w2, inr pd) /\ out_kept w w2 /\
    has_columns ["rel_pos"; "log10p"; "CHR"]%string (upper pd) /\
    has_columns ["rel_pos"; "log10p"; "CHR"]%string (lower pd) /\
    has_columns ["center"; "CHR"]%string (axis pd) /\
    (if decide (t = b)
     then records (upper pd) = [] /\
          length (records (lower pd)) = (2 * length (records (frames w !!! t)))%nat
     else length (records (upper pd)) = length (records (frames w !!! t)) /\
          length (records (lower pd)) = length (records (frames w !!! b))) /\
    (records (frames w !!! t) <> [] -> exists m, maxp pd = Some m).
Proof.
  intros Ht.
  destruct (prepare_data_run t b w) as (w2 & Hrun & Hout & Hcols & Hs & Hrows).
  set (data0 := concat (frames w2 !!! t) (frames w2 !!! b)) in *.
  assert (has_columns ["CHR"; "POS"; "p"]%string data0) as H0.
  { unfold has_columns in *. eapply Forall_impl; [exact Ht|].
    intros c Hc. simpl in Hc. by apply columns_concat_l, Hcols. }
  assert ("split_by" ∈ columns data0) as Hsplit by by apply columns_concat_l.
  destruct (MiamiData.compute_relative_pos_rows data0 "CHR" "POS" "p" w2)
    as (d & Hd & Hdcols & rows & Hperm & Hrel); [cols..|].
  assert (has_columns ["rel_pos"; "log10p"; "CHR"; "split_by"]%string d) as Hd4.
  { unfold has_columns. rewrite !Forall_cons. repeat split; [..|done];
      apply Hdcols; [auto|auto|left; cols|by left]. }
  assert (forall v, length (List.filter (fun r => bool_decide (r !!! "split_by" = v))
                                        (records d)) =
                    length (List.filter (fun r => bool_decide (r !!! "split_by" = v))
                                        (records (frames w2 !!! t))) +
                    length (List.filter (fun r => bool_decide (r !!! "split_by" = v))
                                        (records (frames w2 !!! b))))%nat as Hcount.
  { intros v.
    assert (Forall2 (fun r d' : gmap string cell => d' !!! "split_by" = r !!! "split_by")
                    rows (records d)) as Hkeep.
    { eapply Forall2_impl; [exact Hrel|]. intros r d' (Hext & _). by apply Hext. }
    assert (length (List.filter (fun r => bool_decide (r !!! "split_by" = v)) rows) =
            length (List.filter (fun r => bool_decide (r !!! "split_by" = v)) (records d)))
      as <-.
    { eapply filter_length_Forall2; [|exact Hkeep]. intros r d' Hrd. simpl in Hrd.
      by rewrite Hrd. }
    rewrite (filter_length_perm _ _ _ Hperm). unfold data0. cbn [records concat].
    by rewrite List.filter_app, length_app. }
  eexists _, w2. split.
  { unfold process_miami_data.
    rewrite (bind_run _ _ _ _ _ Hrun), (bind_run _ _ _ _ _ Hd).
    rewrite (bind_run _ _ _ _ _
               (MiamiAxis.find_chromosomes_center_run d w2 ltac:(cols) ltac:(cols))).
    rewrite (bind_run _ _ _ _ _ (floats_run d "log10p" w2 ltac:(cols))).
    cbv zeta.
    rewrite (bind_run _ _ _ _ _ (getcol_run d "split_by" w2 ltac:(cols))).
    reflexivity. }
  split; [done|]. cbn [upper lower axis maxp].
  split; [unfold has_columns in *; rewrite !Forall_cons in *; tauto|].
  split; [unfold has_columns in *; rewrite !Forall_cons in *; tauto|].
  split; [unfold has_columns; repeat constructor|].
  split.
  - cbn [records select].
    destruct (decide (t = b)) as [->|Hne]; destruct Hrows as [Hrt Hrb].
    + split; [apply nil_length_inv|]; rewrite Hcount, Hrt, filter_marked.
      * by rewrite decide_False.
      * rewrite decide_True, !length_map by done. lia.
    + split; rewrite Hcount, Hrt, Hrb, !filter_marked.
      * rewrite decide_True, decide_False, !length_map by done. simpl. lia.
      * rewrite decide_False, decide_True, !length_map by done. done.
  - intros Hne.
    destruct (series_max_ok (map as_float (map (fun r => r !!! "log10p") (records d))))
      as [m Hm].
    { rewrite !length_map, <- (Forall2_length _ _ _ Hrel), (Permutation_length Hperm).
      unfold data0. cbn [records concat]. rewrite length_app.
      assert (0 < length (records (frames w2 !!! t)))%nat; [|lia].
      destruct (decide (t = b)); destruct Hrows as [-> _]; rewrite !length_map;
        destruct (records (frames w !!! t)); simpl; done || lia. }
    rewrite Hm. by eexists.
Qed.

(** X12.  [process_miami_data] on two tables with the columns 'CHR',
    'POS' and 'p' returns, leaving files and directories alone, and
    splits by the mark [prepare_data] has left: the upper part has as
    many rows as the top table and the lower part as many as the bottom
    table.  When one table is passed for both, the second mark
    overwrites the first: the upper part is empty and the lower part
    holds every row twice. *)
Theorem process_miami_data_split (t b : positive) (w : world) :
  has_columns ["CHR"; "POS"; "p"]%string (frames w !!! t) ->
  has_columns ["CHR"; "POS"; "p"]%string (frames w !!! b) ->
  exists pd w2,
    process_miami_data t b w = (w2, inr pd) /\ out_kept w w2 /\
    if decide (t = b)
    then records (upper pd) = [] /\
         length (records (lower pd)) = (2 * length (records (frames w !!! t)))%nat
    else length (records (upper pd)) = length (records (frames w !!! t)) /\
         length (records (lower pd)) = length (records (frames w !!! b)).
Proof.
  intros Ht _.
  destruct (process_miami_data_run t b w Ht) as (pd & w2 & H & Ho & _ & _ & _ & Hs & _).
  by exists pd, w2.
Qed.

Lemma process_miami_data_split_witness :
  (exists pd w2,
     process_miami_data 1 4 sample_world = (w2, inr pd) /\ out_kept sample_world w2 /\
     if decide (1%positive = 4%positive)
     then records (upper pd) = [] /\
          length (records (lower pd)) =
            (2 * length (records (frames sample_world !!! 1%positive)))%nat
     else length (records (upper pd)) =
            length (records (frames sample_world !!! 1%positive)) /\
          length (records (lower pd)) =
            length (records (frames sample_world !!! 4%positive))) /\
  (exists pd w2,
     process_miami_data 1 1 sample_world = (w2, inr pd) /\ out_kept sample_world w2 /\
     if decide (1%positive = 1%positive)
     then records (upper pd) = [] /\
          length (records (lower pd)) =
            (2 * length (records (frames sample_world !!! 1%positive)))%nat
     else length (records (upper pd)) =
            length (records (frames sample_world !!! 1%positive)) /\
          length (records (lower pd)) =
            length (records (frames sample_world !!! 1%positive))).
Proof.
  split.
  - apply (process_miami_data_split 1 4 sample_world); repeat constructor.
  - apply (process_miami_data_split 1 1 sample_world); repeat constructor.
Defined.

End MiamiSplit.

Module MiamiRuns.
Import Miami.

(** Without highlight tables [miami_plot] gets as far as [savefig] once
    the top table has the columns read and a row. *)
Lemma miami_plot_reaches_savefig (t b : positive) (plots_dir : string) (w : world)
    (Q : bool -> world -> Prop) (E : exn -> world -> Prop) :
  has_columns ["CHR"; "POS"; "p"]%string (frames w !!! t) ->
  records (frames w !!! t) <> [] -> t <> b ->
  triple (out_kept w) (savefig plots_dir "miami_plot.png";; mret true) Q E ->
  triple (fun w' => w' = w) (miami_plot t None b None plots_dir) Q E.
Proof.
  intros Ht Hr Hne Htail. pose proof (out_kept_blind w) as Hblind.
  destruct (MiamiSplit.process_miami_data_run t b w Ht)
    as (pd & w2 & Hrun & Hout & Hup & Hlo & Hax & Hsplit & Hmax).
  rewrite decide_False in Hsplit by done. destruct Hsplit as [Hlen _].
  destruct (Hmax Hr) as [m Hm].
  unfold miami_plot. cbv zeta.
  eapply triple_bind with (R := fun pd' w' => pd' = pd /\ out_kept w w').
  { intros w' ->. by rewrite Hrun. }
  intros pd'. apply triple_pure. intros ->. run.
  apply step_finite.
  { destruct (series_max_ok (map as_float (map (fun r => r !!! "rel_pos")
                                              (records (upper pd))))) as [x Hx].
    - rewrite !length_map, Hlen. destruct (records (frames w !!! t)); simpl; [done|lia].
    - rewrite Hx. unfold py_max2.
      destruct (series_max (map as_float (map (fun r => r !!! "rel_pos")
                                              (records (lower pd)))));
        eexists; reflexivity. }
  intros hi. run.
  apply step_finite; [by exists m|]. intros top_y. run.
  exact Htail.
Qed.

(** X13.  For two different tables with the columns 'CHR', 'POS' and
    'p', at least one row each and positive p-values, and no
    highlights, [miami_plot] returns [True] after adding
    [miami_plot.png] to an existing directory; when the directory is
    missing it raises [FileNotFoundError] and writes nothing. *)
Theorem miami_plot_outcomes (t b : positive) (plots_dir : string) (w : world) :
  has_columns ["CHR"; "POS"; "p"]%string (frames w !!! t) ->
  has_columns ["CHR"; "POS"; "p"]%string (frames w !!! b) ->
  records (frames w !!! t) <> [] -> records (frames w !!! b) <> [] ->
  Forall (fun r => (0 < as_float (r !!! "p"))%R)
         (records (frames w !!! t) ++ records (frames w !!! b)) ->
  t <> b ->
  (plots_dir ∈ dirs w ->
   (miami_plot t None b None plots_dir w).2 = inr true /\
   files (miami_plot t None b None plots_dir w).1 =
     files w ++ [path_join plots_dir "miami_plot.png"]) /\
  (plots_dir ∉ dirs w ->
   (miami_plot t None b None plots_dir w).2 = inl FileNotFoundError /\
   files (miami_plot t None b None plots_dir w).1 = files w).
Proof.
  intros Ht _ Hr _ _ Hne. split; intros Hd.
  - pose proof (triple_run _ _ _ _ w
      (miami_plot_reaches_savefig t b plots_dir w
         (fun v w' => v = true /\
                      files w' = files w ++ [path_join plots_dir "miami_plot.png"])
         (fun _ _ => False) Ht Hr Hne
         ltac:(eapply triple_bind with
                 (R := fun _ w' =>
                         files w' = files w ++ [path_join plots_dir "miami_plot.png"]);
               [apply triple_savefig; intros w' (Hd' & Hf'); split;
                  [intros _; simpl; by rewrite Hf'
                  |intros Hnd; apply Hnd; by rewrite Hd']
               |intros _; by apply triple_ret]))
      eq_refl) as H.
    destruct ((miami_plot t None b None plots_dir w).2) as [e|v]; [done|].
    by destruct H as [-> H].
  - pose proof (triple_run _ _ _ _ w
      (miami_plot_reaches_savefig t b plots_dir w
         (fun _ _ => False)
         (fun e w' => e = FileNotFoundError /\ files w' = files w) Ht Hr Hne
         ltac:(eapply triple_bind with (R := fun _ _ => False);
               [apply triple_savefig; intros w' (Hd' & Hf'); split;
                  [intros Hin; apply Hd; by rewrite <- Hd'|done]
               |by intros ? ? []]))
      eq_refl) as H.
    destruct ((miami_plot t None b None plots_dir w).2) as [e|v]; [|done].
    by destruct H as [-> H].
Qed.

Lemma miami_plot_outcomes_witness :
  (miami_plot 1 None 4 None "plots" sample_world).2 = inr true /\
  (miami_plot 1 None 4 None "figures" sample_world).2 = inl FileNotFoundError.
Proof.
  split.
  - apply (miami_plot_outcomes 1 4 "plots" sample_world);
      try discriminate; try (repeat constructor; fail).
    apply Forall_app; split; apply QQEdges.sample_gwas_positive.
  - apply (miami_plot_outcomes 1 4 "figures" sample_world);
      try discriminate; try (repeat constructor; fail).
    + apply Forall_app; split; apply QQEdges.sample_gwas_positive.
    + apply (bool_decide_unpack _). vm_compute. exact Logic.I.
Defined.

End MiamiRuns.


Module MiamiLabels.
Import Miami.



End MiamiLabels.

(** ** The caller of the composers *)

Module GWASRandomFacts.
Import GWASRandom.

Lemma pres_alloc_files w0 df : preserves (files_kept w0) (alloc df).
Proof. by intros w Hw. Qed.

Lemma pres_read_csv_files w0 disk path usecols :
  preserves (files_kept w0) (read_csv disk path usecols).
Proof.
  unfold read_csv. destruct (disk !! path) as [df|]; [|by apply triple_raise].
  destruct usecols as [cs|]; [|apply pres_alloc_files].
  destruct (bool_decide _); [apply pres_alloc_files|by apply triple_raise].
Qed.

Lemma alloc_run df w :
  exists l w', alloc df w = (w', inr l) /\
    frames w !! l = None /\ frames w' = <[l := df]> (frames w) /\
    dirs w' = dirs w /\ files w' = files w.
Proof.
  eexists _, _. split; [reflexivity|]. split; [|done].
  apply (not_elem_of_dom (D := gset positive)).
  exact (is_fresh (dom (frames w) : gset positive)).
Qed.

(** X15.  [plot_drawings] never gets to its report, whatever the
    configuration, the files on disk and the tables they hold, and it
    writes no figure: with [annotate] set the Manhattan composer does
    not return, without it the call reads [df_annot], which was never
    assigned. *)
Theorem plot_drawings_never_returns (disk : gmap string DataFrame) (self : GWASrandom)
    (w : world) :
  (exists e, (plot_drawings disk self w).2 = inl e) /\
  files (plot_drawings disk self w).1 = files w.
Proof.
  assert (triple (files_kept w) (plot_drawings disk self)
            (fun _ _ => False) (fun _ => files_kept w)) as Ht.
  { pose proof (files_kept_blind w) as Hblind. unfold plot_drawings. cbv zeta.
    apply (triple_bind_pres (files_kept w)); [apply pres_lift|]. intros annotate.
    apply (triple_bind_pres (files_kept w)); [apply pres_read_csv_files|].
    intros df_gwas.
    eapply triple_bind with (R := fun _ _ => False); [|by intros ? ? []].
    destruct (truthy annotate).
    - apply (triple_bind_pres (files_kept w)); [apply pres_read_csv_files|].
      intros df_annot.
      by apply ManhattanEdges.manhattan_plot_annotate_triple_any.
    - by apply step_raise. }
  pose proof (triple_run _ _ _ _ w Ht eq_refl) as H.
  destruct ((plot_drawings disk self w).2) as [e|v]; [|done].
  split; [by exists e|exact H].
Qed.

Lemma bind_raise_run {A B} (m : M A) (k : A -> M B) (w w' : world) (e : exn) :
  m w = (w', inl e) -> (m ≫= k) w = (w', inl e).
Proof. intros H. unfold mbind, M_bind. by rewrite H. Qed.

Lemma read_csv_usecols_run disk path cs df w :
  disk !! path = Some df -> has_columns cs df ->
  exists l w',
    read_csv disk path (Some cs) w = (w', inr l) /\
    frames w !! l = None /\
    frames w' =
      <[l := mkDF (List.filter (fun c => bool_decide (c ∈ cs)) (columns df))
                  (map (filter (fun kv : string * cell => kv.1 ∈ cs)) (records df))]>
        (frames w) /\
    dirs w' = dirs w /\ files w' = files w.
Proof.
  intros Hp Hc. unfold read_csv. rewrite Hp, bool_decide_eq_true_2 by exact Hc.
  apply alloc_run.
Qed.

(** X16.  How [plot_drawings] ends.  A configuration without
    ['annotate'] gives [KeyError] and a missing association file
    [FileNotFoundError], both before anything is touched.  With the
    file read - only its columns 'SNP', 'CHR' and 'p' are - a false
    [annotate] gives [UnboundLocalError]; a true one gives
    [FileNotFoundError] when [snps_annotated.csv] is missing and
    otherwise [KeyError] for 'bp', the column the Manhattan composer
    sorts by and [usecols] has left out. *)
Theorem plot_drawings_outcomes (disk : gmap string DataFrame) (self : GWASrandom)
    (w : world) :
  (config_dict self !! "annotate" = None ->
   plot_drawings disk self w = (w, inl (KeyError "annotate"))) /\
  (is_Some (config_dict self !! "annotate") ->
   disk !! path_join (results_dir self) (fastGWA_file (output_name self)) = None ->
   plot_drawings disk self w = (w, inl FileNotFoundError)) /\
  (forall v gwas,
     config_dict self !! "annotate" = Some v ->
     disk !! path_join (results_dir self) (fastGWA_file (output_name self)) = Some gwas ->
     has_columns ["SNP"; "CHR"; "p"]%string gwas ->
     (truthy v = false -> (plot_drawings disk self w).2 = inl UnboundLocalError) /\
     (truthy v = true ->
      disk !! path_join (results_dir self) "snps_annotated.csv" = None ->
      (plot_drawings disk self w).2 = inl FileNotFoundError) /\
     (truthy v = true ->
      is_Some (disk !! path_join (results_dir self) "snps_annotated.csv") ->
      (plot_drawings disk self w).2 = inl (KeyError "bp"))).
Proof.
  split; [|split].
  - intros Hcfg. unfold plot_drawings, dict_get. by rewrite Hcfg.
  - intros [v Hcfg] Hfile. unfold plot_drawings, dict_get, read_csv. cbv zeta.
    rewrite Hcfg. rewrite (bind_run _ _ w w v eq_refl). by rewrite Hfile.
  - intros v gwas Hcfg Hfile Hcols.
    destruct (read_csv_usecols_run disk _ _ gwas w Hfile Hcols)
      as (l & w1 & Hread & Hfresh & Hframes & _ & _).
    assert (plot_drawings disk self w =
              ((if truthy v
                then df_annot ← read_csv disk
                                  (path_join (results_dir self) "snps_annotated.csv") None;
                     Manhattan.manhattan_plot l (Some (plots_dir self)) (Some df_annot) true
                else df_annot ← local (None : option (option positive));
                     Manhattan.manhattan_plot l (Some (plots_dir self)) df_annot false) ≫=
               (fun mann_plot =>
                  QQ_plot ← QQ.qq_plot l (plots_dir self);
                  process_complete ← lift (py_and mann_plot QQ_plot);
                  mret (mkOutDict process_complete "draw_plots" (plots_dir self)))) w1)
      as Hrun.
    { unfold plot_drawings, dict_get. cbv zeta. rewrite Hcfg.
      rewrite (bind_run _ _ w w v eq_refl). by rewrite (bind_run _ _ _ _ _ Hread). }
    rewrite Hrun. clear Hrun.
    split; [|split].
    + intros ->. reflexivity.
    + intros -> Hannot.
      erewrite bind_raise_run; [reflexivity|].
      apply bind_raise_run. unfold read_csv. by rewrite Hannot.
    + intros -> [annot Hannot].
      destruct (alloc_run annot w1) as (l2 & w2 & Halloc & Hfresh2 & Hframes2 & _ & _).
      erewrite bind_raise_run; [reflexivity|].
      erewrite bind_run; [|unfold read_csv; rewrite Hannot; exact Halloc].
      assert (frames w2 !!! l =
              mkDF (List.filter (fun c => bool_decide (c ∈ ["SNP"; "CHR"; "p"]%string))
                                (columns gwas))
                   (map (filter (fun kv : string * cell =>
                                   kv.1 ∈ ["SNP"; "CHR"; "p"]%string)) (records gwas)))
        as Hl.
      { rewrite Hframes2, Hframes. rewrite lookup_total_insert_ne.
        - by rewrite lookup_total_insert_eq.
        - intros <-. rewrite Hframes, lookup_insert_eq in Hfresh2. done. }
      apply ManhattanEdges.manhattan_plot_without_bp; rewrite Hl; cbn [columns].
      * apply list_elem_of_In, filter_In. split; [apply list_elem_of_In; cols|done].
      * apply list_elem_of_In, filter_In. split; [apply list_elem_of_In; cols|done].
      * intros H. apply list_elem_of_In, filter_In in H as [_ H].
        vm_compute in H. discriminate.
Qed.

Lemma plot_drawings_outcomes_witness :
  (plot_drawings sample_disk (sample_self 0) sample_world).2 = inl UnboundLocalError /\
  (plot_drawings sample_disk (sample_self 1) sample_world).2 = inl (KeyError "bp") /\
  plot_drawings ∅ (sample_self 1) sample_world = (sample_world, inl FileNotFoundError).
Proof.
  split; [|split].
  - apply (plot_drawings_outcomes sample_disk (sample_self 0) sample_world)
      with (v := Int 0) (gwas := sample_gwas); try reflexivity.
    repeat constructor.
  - apply (plot_drawings_outcomes sample_disk (sample_self 1) sample_world)
      with (v := Int 1) (gwas := sample_gwas); try reflexivity.
    + repeat constructor.
    + by eexists.
  - apply (plot_drawings_outcomes ∅ (sample_self 1) sample_world).
    + by eexists.
    + reflexivity.
Defined.

End GWASRandomFacts.

(** ** What [draw_chrom_groups] draws *)

Module ManhattanTicks.
Import Manhattan.

Section Groups.
Variable ax : positive.
Variable highlighted_snps : option DataFrame.
Hypothesis highlighted_columns :
  from_option (has_columns ["ind"; "log10P"]%string) True highlighted_snps.

Lemma draw_chrom_groups_loop (groups : list (Z * DataFrame)) :
  Forall (fun g => has_columns ["ind"; "log10P"]%string g.2) groups ->
  forall (k : nat) (x_labels : list cell) (x_labels_pos : list R) (w : world),
  exists w' arts,
    foldM (fun (st : list cell * list R) (it : nat * (Z * DataFrame)) =>
        let '(x_labels, x_labels_pos) := st in
        let '(num, (name, group)) := it in
        ind ← floats group "ind";
        log10P ← floats group "log10P";
        draw (Scatter ax ind log10P (colors !!! (num mod length colors)%nat) 10);;
        let x_labels := x_labels ++ [Int name] in
        let middle_pos := ((default 0 (last ind) + default 0 (head ind)) / 2)%R in
        let x_labels_pos := x_labels_pos ++ [middle_pos] in
        draw (Xticks ax x_labels_pos x_labels);;
        match highlighted_snps with
        | Some h =>
            hx ← floats h "ind";
            hy ← floats h "log10P";
            draw (Scatter ax hx hy "red" 50)
        | None => mret tt
        end;;
        mret (x_labels, x_labels_pos))
      (x_labels, x_labels_pos) (imap (fun i g => ((k + i)%nat, g)) groups) w
    = (w', inr (x_labels ++ map (fun g => Int g.1) groups,
                x_labels_pos ++ map (fun g => group_middle g.2) groups)) /\
    same_store w w' /\ figure w' = figure w ++ arts /\
    length arts =
      (match highlighted_snps with Some _ => 3 | None => 2 end * length groups)%nat /\
    (groups <> [] ->
     Xticks ax (x_labels_pos ++ map (fun g => group_middle g.2) groups)
               (x_labels ++ map (fun g => Int g.1) groups) ∈ arts).
Proof.
  induction 1 as [|[name group] groups Hg _ IH]; intros k x_labels x_labels_pos w.
  - exists w, []. simpl. rewrite !app_nil_r.
    split; [done|]. split; [done|]. split; [done|]. split; [lia|done].
  - simpl in Hg.
    assert ("ind" ∈ columns group) as Hi by cols.
    assert ("log10P" ∈ columns group) as Hl by cols.
    rewrite imap_cons. cbn [foldM].
    set (w1 := mkWorld (frames w)
                 (figure w ++
                  [Scatter ax (map as_float (map (fun r => r !!! "ind") (records group)))
                     (map as_float (map (fun r => r !!! "log10P") (records group)))
                     (colors !!! ((k + 0) mod length colors)%nat) 10;
                   Xticks ax (x_labels_pos ++ [group_middle group])
                             (x_labels ++ [Int name])] ++
                  match highlighted_snps with
                  | Some h => [Scatter ax
                                 (map as_float (map (fun r => r !!! "ind") (records h)))
                                 (map as_float (map (fun r => r !!! "log10P") (records h)))
                                 "red" 50]
                  | None => []
                  end)
                 (dirs w) (files w)).
    destruct (IH (S k) (x_labels ++ [Int name]) (x_labels_pos ++ [group_middle group]) w1)
      as (w' & arts & Hrun & (Hf & Hd & Hfl) & Hfig & Hlen & Hticks).
    exists w'. eexists. split; [|split; [|split; [|split]]].
    + erewrite bind_run.
      * erewrite (imap_ext _ (fun i g => (S k + i, g))%nat)
          by (intros; unfold compose; simpl; f_equal; lia).
        rewrite Hrun. by rewrite <- !app_assoc.
      * unfold floats, getcol, lift, draw, mbind, M_bind, mret, M_ret.
        rewrite !getitem_ok by done.
        subst w1. destruct highlighted_snps as [h|]; simpl in *.
        -- rewrite !getitem_ok by cols. simpl. rewrite <- !app_assoc. reflexivity.
        -- rewrite ?app_nil_r, <- ?app_assoc. reflexivity.
    + unfold same_store. by rewrite Hf, Hd, Hfl.
    + rewrite Hfig. subst w1. cbn [figure]. rewrite <- !app_assoc. reflexivity.
    + rewrite !length_app, Hlen.
      destruct highlighted_snps; simpl; lia.
    + intros _. destruct groups as [|g groups].
      * simpl. apply list_elem_of_further, list_elem_of_here.
      * do 2 apply list_elem_of_further. apply elem_of_app. right.
        cbn [map] in *. rewrite <- !app_assoc in Hticks. by apply Hticks.
Qed.
End Groups.

(** X17.  With the columns 'ind' and 'log10P' in every group (and in
    the highlighted table, if there is one) and no group without rows,
    as [groupby] yields them, [draw_chrom_groups] returns
    its axes and only draws: two artists per chromosome group, three
    when a highlighted table is given, whose points are thus drawn
    again for every group; after the last group the ticks stand one per
    group, labelled by the group keys in the order given, each in the
    middle between the last and the first row index of its group. *)
Theorem draw_chrom_groups_artists (ax : positive) (groups : list (Z * DataFrame))
    (highlighted_snps : option DataFrame) (w : world) :
  Forall (fun g => has_columns ["ind"; "log10P"]%string g.2) groups ->
  Forall (fun g => records g.2 <> []) groups ->
  from_option (has_columns ["ind"; "log10P"]%string) True highlighted_snps ->
  exists w' arts,
    draw_chrom_groups ax groups highlighted_snps w = (w', inr ax) /\
    same_store w w' /\ figure w' = figure w ++ arts /\
    length arts =
      (match highlighted_snps with Some _ => 3 | None => 2 end * length groups)%nat /\
    (groups <> [] ->
     Xticks ax (map (fun g => group_middle g.2) groups) (map (fun g => Int g.1) groups)
       ∈ arts).
Proof.
  intros Hg _ Hh.
  destruct (draw_chrom_groups_loop ax highlighted_snps Hh groups Hg 0 [] [] w)
    as (w' & arts & Hrun & Hs & Hfig & Hlen & Hticks).
  exists w', arts. split; [|done].
  unfold draw_chrom_groups. erewrite bind_run; [reflexivity|exact Hrun].
Qed.

Lemma draw_chrom_groups_artists_witness :
  exists w' arts,
    draw_chrom_groups 111 [(1, indexed_group)] None sample_world = (w', inr 111%positive) /\
    same_store sample_world w' /\ figure w' = figure sample_world ++ arts /\
    length arts = (2 * length [(1, indexed_group)])%nat /\
    ([(1, indexed_group)] <> [] ->
     Xticks 111 (map (fun g : Z * DataFrame => group_middle g.2) [(1, indexed_group)])
                (map (fun g : Z * DataFrame => Int g.1) [(1, indexed_group)])
       ∈ arts).
Proof.
  apply (draw_chrom_groups_artists 111 [(1, indexed_group)] None sample_world).
  - repeat constructor.
  - repeat constructor. discriminate.
  - exact Logic.I.
Defined.

End ManhattanTicks.
